(** * Electron trajectories in a uniform magnetic field

    A shallow embedding of [electron_simulation.py].  The script computes
    with NumPy [float64] values, so numbers are Rocq's primitive binary64
    floats: every [+], [*], [/] and [sqrt] below rounds exactly as the
    Python code does, and division by zero, overflow and NaN behave as in
    NumPy (a value is produced, nothing is raised).  The dot product behind
    [np.linalg.norm] is the fused one of the BLAS kernel, defined here from
    the IEEE specification.

    The file has two parts.  The first holds the definitions: the NumPy
    operations the script calls, the integrator [simulate_trajectory] and
    the sweep driver [main].  The second holds the facts: the sign and zero
    laws of binary64 arithmetic, the behaviour of the loop, and the
    properties of the specification, numbered C1 to C10. *)

From Stdlib Require Import String Floats ZArith List Bool Lia Morphisms Setoid.
Import ListNotations.

#[local] Set Warnings "-inexact-float".
#[local] Open Scope float_scope.

(** ** Binary64 numbers, read through their IEEE specification *)

Module F64.

(** Equal, or two zeros of any signs. *)
Definition sf_sim (a b : spec_float) : Prop :=
  match a, b with
  | S754_zero _, S754_zero _ => True
  | _, _ => a = b
  end.

Definition sf_zero (a : spec_float) : bool :=
  match a with S754_zero _ => true | _ => false end.

Definition sf_fin (a : spec_float) : bool :=
  match a with S754_zero _ | S754_finite _ _ _ => true | _ => false end.

(** [x] and [y] are the same number: [x == y] in Python, or both NaN. *)
Definition same (x y : float) : bool := (x =? y) || (is_nan x && is_nan y).

Definition feq (x y : float) : Prop := sf_sim (Prim2SF x) (Prim2SF y).

(** The fused multiply-add [x * y + z], rounded once, on specifications: the
    exact product of two finite numbers keeps its whole mantissa and is
    aligned and summed with [z] before the only rounding. *)
Definition SFfma (x y z : spec_float) : spec_float :=
  match x, y with
  | S754_nan, _ | _, S754_nan => S754_nan
  | S754_infinity _, S754_zero _ | S754_zero _, S754_infinity _ => S754_nan
  | S754_infinity sx, S754_infinity sy
  | S754_infinity sx, S754_finite sy _ _
  | S754_finite sx _ _, S754_infinity sy =>
      SF64add (S754_infinity (xorb sx sy)) z
  | S754_zero sx, S754_zero sy
  | S754_zero sx, S754_finite sy _ _
  | S754_finite sx _ _, S754_zero sy =>
      SF64add (S754_zero (xorb sx sy)) z
  | S754_finite sx mx ex, S754_finite sy my ey =>
      let s := xorb sx sy in
      let mp := Pos.mul mx my in
      let ep := Z.add ex ey in
      match z with
      | S754_nan => S754_nan
      | S754_infinity _ => z
      | S754_zero _ => binary_round_aux prec emax s (Zpos mp) ep loc_Exact
      | S754_finite sz mz ez =>
          let e := Z.min ep ez in
          binary_normalize prec emax
            (Z.add (cond_Zopp s (Zpos (fst (shl_align mp ep e))))
                   (cond_Zopp sz (Zpos (fst (shl_align mz ez e)))))
            e false
      end
  end.

(** The fused multiply-add of the processor, [fma(x, y, z)]. *)
Definition fma (x y z : float) : float :=
  SF2Prim (SFfma (Prim2SF x) (Prim2SF y) (Prim2SF z)).

End F64.

(** ** NumPy arrays of the two shapes the script uses *)

Module Np.

(** A [float64] array of shape (2,) and one of shape (3,). *)
Record array2 := Arr2 { at0 : float; at1 : float }.
Record array3 := Arr3 { el0 : float; el1 : float; el2 : float }.

(** [np.cross(a, b)] for [a] of shape (2,) and [b] of shape (3,): NumPy
    takes the missing third component of [a] as zero and computes
    [cp0 = a1*b2], [cp1 = -(a0*b2)], [cp2 = a0*b1 - a1*b0]. *)
Definition cross (a : array2) (b : array3) : array3 :=
  Arr3 (at1 a * el2 b) (- (at0 a * el2 b)) (at0 a * el1 b - at1 a * el0 b).

(** The slice [c[:2]]. *)
Definition take2 (c : array3) : array2 := Arr2 (el0 c) (el1 c).

(** Broadcasting a scalar: [k * a], [a * k], [a / k]. *)
Definition lscale (k : float) (a : array2) : array2 :=
  Arr2 (k * at0 a) (k * at1 a).

Definition rscale (a : array2) (k : float) : array2 :=
  Arr2 (at0 a * k) (at1 a * k).

Definition rdiv (a : array2) (k : float) : array2 :=
  Arr2 (at0 a / k) (at1 a / k).

(** [a += b], element by element. *)
Definition iadd (a b : array2) : array2 :=
  Arr2 (at0 a + at0 b) (at1 a + at1 b).

(** [a.dot(b)] of two vectors of shape (2,), as the BLAS kernel behind it
    accumulates: the first product is rounded, the second is fused with the
    sum, [fma(a1, b1, a0 * b0)]. *)
Definition dot (a b : array2) : float := F64.fma (at1 a) (at1 b) (at0 a * at0 b).

(** [np.linalg.norm(a)] of a real vector: the square root of [a.dot(a)]. *)
Definition norm (a : array2) : float := sqrt (dot a a).

End Np.

(** ** Calls *)

(** What a Python call can come to: a value returned, or an exception. *)
Inductive exception := InvalidParameter.

Inductive outcome (A : Type) :=
| Returned (a : A)
| Raised (ex : exception).

Arguments Returned {A} a.
Arguments Raised {A} ex.

(** ** The integrator, lines 34 to 72 *)

Module Integrator.

Import Np.

(** The arrays [pos] and [vel] a run owns. *)
Record particle := Particle { pos : array2; vel : array2 }.

(** The local variables of [simulate_trajectory] while it loops. *)
Record frame := Frame { now : particle; x_traj : list float; y_traj : list float }.

Section Run.

(** The global [cutoff_distance] the loop reads, then the arguments of the
    call. *)
Variable cutoff : float.
Variables v0 q m Bz : float.
Variable steps : Z.
Variable dt : float.

(** Lines 57 to 62: force, acceleration, then velocity, then position from
    the velocity just written. *)
Definition advance (p : particle) : particle :=
  let F := lscale q (take2 (cross (vel p) (Arr3 0 0 Bz))) in
  let a := rdiv F m in
  let vel' := iadd (vel p) (rscale a dt) in
  let pos' := iadd (pos p) (rscale vel' dt) in
  Particle pos' vel'.

(** Line 69: [np.linalg.norm(pos) > cutoff_distance]. *)
Definition exceeds (p : particle) : bool := cutoff <? norm (pos p).

(** One pass through the loop body; the boolean says that [break] ran. *)
Definition iteration (f : frame) : frame * bool :=
  let p := advance (now f) in
  let f' := Frame p (x_traj f ++ [at0 (pos p) * 100])
                    (y_traj f ++ [at1 (pos p) * 100]) in
  (f', exceeds p).

(** The frame a pass leaves. *)
Definition pass (f : frame) : frame := fst (iteration f).

(** [for _ in range(n)] over the body, counting the passes made. *)
Fixpoint for_range (n : nat) (f : frame) : nat * frame :=
  match n with
  | O => (O, f)
  | S n' =>
      let (f', stop) := iteration f in
      if stop then (1%nat, f')
      else let (k, f'') := for_range n' f' in (S k, f'')
  end.

(** The same loop as a relation: with [n] values left in the range, the
    loop started on [f] makes [k] passes and leaves [f']. *)
Inductive loops : nat -> frame -> nat -> frame -> Prop :=
| loops_exhausted f : loops O f O f
| loops_break n f f' :
    iteration f = (f', true) -> loops (S n) f 1 f'
| loops_next n f f' k f'' :
    iteration f = (f', false) -> loops n f' k f'' -> loops (S n) f (S k) f''.

(** Lines 49 to 52. *)
Definition start : particle := Particle (Arr2 0 0) (Arr2 v0 0).

Definition entry : frame := Frame start [] [].

(** The loop of lines 54 to 70; [range(steps)] of a Python integer is empty
    below 1. *)
Definition run : nat * frame := for_range (Z.to_nat steps) entry.

(** [simulate_trajectory(v0, q, m, Bz, steps, dt)]. *)
Definition simulate_trajectory : list float * list float :=
  let f := snd run in (x_traj f, y_traj f).

(** The call as a whole.  The body has no [raise], and NumPy's [float64]
    operations warn instead of raising, so the call returns. *)
Definition call : outcome (list float * list float) := Returned simulate_trajectory.

(** How many times the loop body ran. *)
Definition passes : nat := fst run.

(** The particle after [k] passes of a loop that never breaks. *)
Definition orbit (k : nat) : particle := Nat.iter k advance start.

(** The point the loop appends for a particle: its position in centimeters. *)
Definition point_cm (p : particle) : float * float :=
  (at0 (pos p) * 100, at1 (pos p) * 100).

(** The step as the specification words it: [F = (q vy Bz, - q vx Bz)],
    [a = F / m], then the velocity, then the position from the new velocity. *)
Definition lorentz_force (v : array2) : float * float :=
  (q * (at1 v * Bz), - (q * (at0 v * Bz))).

Definition semi_implicit_step (p : particle) : particle :=
  let '(Fx, Fy) := lorentz_force (vel p) in
  let ax := Fx / m in
  let ay := Fy / m in
  let vx := at0 (vel p) + ax * dt in
  let vy := at1 (vel p) + ay * dt in
  let x := at0 (pos p) + vx * dt in
  let y := at1 (pos p) + vy * dt in
  Particle (Arr2 x y) (Arr2 vx vy).

End Run.

(** [p'] is [p] reflected in the x-axis, as numbers. *)
Definition mirrored (p p' : particle) : Prop :=
  F64.feq (at0 (pos p')) (at0 (pos p)) /\ F64.feq (at1 (pos p')) (- at1 (pos p))
  /\ F64.feq (at0 (vel p')) (at0 (vel p)) /\ F64.feq (at1 (vel p')) (- at1 (vel p)).

(** [p] has not left the x-axis, and its speed along it is still [v0]. *)
Definition on_axis (v0 : float) (p : particle) : Prop :=
  at1 (pos p) = 0 /\ at1 (vel p) = 0 /\ F64.feq (at0 (vel p)) v0.

End Integrator.

(** ** Module-level constants of the script, lines 24 to 32 *)

Definition e : float := 1.602176634e-19.
Definition me : float := 9.10938356e-31.
Definition dt : float := 1e-11.
Definition steps : Z := 5000.
Definition Ek_default : float := 20.
Definition B_default : float := 2e-3.
Definition cutoff_distance : float := 20.

(** A call of the script's [simulate_trajectory], which reads the global
    [cutoff_distance]. *)
Definition call_simulate_trajectory (v0 q m Bz : float) (steps : Z) (dt : float)
  : outcome (list float * list float) :=
  Integrator.call cutoff_distance v0 q m Bz steps dt.

(** ** The sweep driver, lines 95 to 148 *)

Module Sweep.

(** The text a legend entry is formatted from. *)
Inductive label :=
| FieldLabel (millitesla : float)
| EnergyLabel (electronvolt : float)
| MassLabel (electron_masses : float)
| TextLabel (s : string).

(** A line colour: a sample of the viridis map, or a named colour. *)
Inductive colour :=
| Viridis (t : float)
| Named (s : string).

(** What [main] does to the outside, in order. *)
Inductive event :=
| Stdout (s : string)
| Simulate (v0 q m Bz : float)
| Plot (row col : nat) (x y : list float) (c : colour) (l : label)
| SetupAxes (row col : nat) (title : string)
| SaveFig (file : string)
| ShowFigure.

(** Computations that log events. *)
Definition io (A : Type) : Type := list event -> A * list event.

Definition ret {A} (a : A) : io A := fun tr => (a, tr).

Definition bind {A B} (c : io A) (k : A -> io B) : io B :=
  fun tr => let (a, tr') := c tr in k a tr'.

Definition emit (ev : event) : io unit := fun tr => (tt, tr ++ [ev]).

Notation "x <- c ;; k" := (bind c (fun x => k))
  (at level 61, c at next level, right associativity).
Notation "c ;; k" := (bind c (fun _ => k))
  (at level 61, right associativity).

(** A call of the integrator with the default [steps] and [dt]. *)
Definition simulate (v0 q m Bz : float) : io (list float * list float) :=
  emit (Simulate v0 q m Bz) ;;
  ret (Integrator.simulate_trajectory cutoff_distance v0 q m Bz steps dt).

(** [for a, c in zip(l, colors): body]. *)
Fixpoint for_zip {A B} (l : list A) (cs : list B) (body : A -> B -> io unit) : io unit :=
  match l, cs with
  | a :: l', c :: cs' => body a c ;; for_zip l' cs' body
  | _, _ => ret tt
  end.

(** [plt.cm.viridis(np.linspace(0, 0.8, 3))]: one colour per sample. *)
Definition colors : list colour := [Viridis 0; Viridis 0.4; Viridis 0.8].

Definition main : io unit :=
  emit (Stdout "Simulating magnetic field variations...") ;;
  for_zip [1e-3; 2e-3; 5e-3] colors (fun Bz color =>
    let v0 := sqrt (2 * Ek_default * e / me) in
    xy <- simulate v0 (- e) me Bz ;;
    emit (Plot 0 0 (fst xy) (snd xy) color (FieldLabel (Bz * 1e3)))) ;;
  emit (SetupAxes 0 0 "Varying Magnetic Field Strength") ;;
  emit (Stdout "Simulating energy variations...") ;;
  for_zip [10; 20; 40] colors (fun Ek color =>
    let v0 := sqrt (2 * Ek * e / me) in
    xy <- simulate v0 (- e) me B_default ;;
    emit (Plot 0 1 (fst xy) (snd xy) color (EnergyLabel Ek))) ;;
  emit (SetupAxes 0 1 "Varying Kinetic Energy") ;;
  emit (Stdout "Simulating mass variations...") ;;
  for_zip [me; 2 * me; 4 * me] colors (fun m color =>
    let v0 := sqrt (2 * Ek_default * e / m) in
    xy <- simulate v0 (- e) m B_default ;;
    emit (Plot 1 0 (fst xy) (snd xy) color (MassLabel (m / me)))) ;;
  emit (SetupAxes 1 0 "Varying Particle Mass") ;;
  emit (Stdout "Simulating charge sign comparison...") ;;
  let v0 := sqrt (2 * Ek_default * e / me) in
  xy1 <- simulate v0 (- e) me B_default ;;
  xy2 <- simulate v0 e me B_default ;;
  emit (Plot 1 1 (fst xy1) (snd xy1) (Named "blue") (TextLabel "Electron (q=-e)")) ;;
  emit (Plot 1 1 (fst xy2) (snd xy2) (Named "red") (TextLabel "Positron (q=+e)")) ;;
  emit (SetupAxes 1 1 "Charge Sign Comparison") ;;
  emit (SaveFig "electron_trajectories_koshish.png") ;;
  emit (Stdout "Simulation complete. Results saved to electron_trajectories_koshish.png") ;;
  emit ShowFigure.

(** The events of one execution. *)
Definition trace : list event := snd (main []).

(** The integrator calls of a trace, as argument tuples, in order. *)
Definition calls (tr : list event) : list (float * float * float * float) :=
  flat_map (fun ev => match ev with
                      | Simulate v0 q m Bz => [(v0, q, m, Bz)]
                      | _ => []
                      end) tr.

(** The trajectories handed to the plotting sink, in order. *)
Definition plotted (tr : list event) : list (list float * list float) :=
  flat_map (fun ev => match ev with
                      | Plot _ _ x y _ _ => [(x, y)]
                      | _ => []
                      end) tr.

(** The trajectory a recorded call computes. *)
Definition result_of (c : float * float * float * float) : list float * list float :=
  let '(v0, q, m, Bz) := c in
  Integrator.simulate_trajectory cutoff_distance v0 q m Bz steps dt.

(** The kinetic energies, in electron volts, the driver starts its runs from. *)
Definition energies : list float :=
  [Ek_default; Ek_default; Ek_default; 10; 20; 40;
   Ek_default; Ek_default; Ek_default; Ek_default; Ek_default].

End Sweep.

(** ** Motions to compare runs with *)

Module Motion.

Import Np Integrator.

(** [x] with its sign reversed when [b] is set. *)
Definition flip (b : bool) (x : float) : float := if b then - x else x.

(** [p'] is [p] with its x-components reversed when [sx] is set and its
    y-components reversed when [sy] is set, as numbers. *)
Definition reflected (sx sy : bool) (p p' : particle) : Prop :=
  F64.feq (at0 (pos p')) (flip sx (at0 (pos p)))
  /\ F64.feq (at1 (pos p')) (flip sy (at1 (pos p)))
  /\ F64.feq (at0 (vel p')) (flip sx (at0 (vel p)))
  /\ F64.feq (at1 (vel p')) (flip sy (at1 (vel p))).

(** The abscissa, in meters, after [k] steps at the constant speed [v0]:
    [dt * v0] added [k] times to 0. *)
Definition drift (v0 dt : float) (k : nat) : float :=
  Nat.iter k (fun x => x + v0 * dt) 0.

(** [p] moves along the x-axis at the speed [v0] and has covered [x]. *)
Definition coasting (v0 x : float) (p : particle) : Prop :=
  F64.feq (at0 (pos p)) x /\ at1 (pos p) = 0
  /\ F64.feq (at0 (vel p)) v0 /\ at1 (vel p) = 0.

End Motion.

(** ** Reading a figure off the events *)

Module Figure.

Import Sweep.

(** The curves drawn on the panel at [row], [col], in the order drawn. *)
Definition curves (row col : nat) (tr : list event) : list (list float * list float) :=
  flat_map (fun ev => match ev with
                      | Plot r c x y _ _ =>
                          if (Nat.eqb r row && Nat.eqb c col)%bool then [(x, y)] else []
                      | _ => []
                      end) tr.

End Figure.

(** * Facts

    ** Binary64 arithmetic: signs, zeros and the sign of zero *)

Module F64Facts.

Import F64.

Lemma sf_sim_refl a : sf_sim a a.
Proof. destruct a; simpl; auto. Qed.

Lemma sf_sim_sym a b : sf_sim a b -> sf_sim b a.
Proof. destruct a, b; simpl; intros H; try exact I; inversion H; reflexivity. Qed.

Lemma sf_sim_trans a b c : sf_sim a b -> sf_sim b c -> sf_sim a c.
Proof.
  destruct a, b; simpl; intros H1; try (inversion H1; subst; clear H1);
    destruct c; simpl; intros H2; try exact I; try (inversion H2; subst);
    reflexivity.
Qed.

Lemma round_aux_opp s mx ex lx :
  binary_round_aux prec emax (negb s) mx ex lx
  = SFopp (binary_round_aux prec emax s mx ex lx).
Proof.
  unfold binary_round_aux.
  destruct (shr_fexp prec emax mx ex lx) as [r1 e1].
  destruct (shr_fexp prec emax _ e1 loc_Exact) as [r2 e2].
  destruct (shr_m r2); [reflexivity| |reflexivity].
  destruct (Z.leb e2 _); reflexivity.
Qed.

Lemma round_opp s mx ex :
  binary_round prec emax (negb s) mx ex = SFopp (binary_round prec emax s mx ex).
Proof.
  unfold binary_round. destruct (shl_align mx ex _) as [mz ez]. apply round_aux_opp.
Qed.

Lemma SFopp_invol a : SFopp (SFopp a) = a.
Proof. destruct a; simpl; rewrite ?negb_involutive; reflexivity. Qed.

Lemma SFmul_opp_l a b : SF64mul (SFopp a) b = SFopp (SF64mul a b).
Proof.
  unfold SF64mul; destruct a, b; simpl; rewrite <- ?negb_xorb_l;
    try reflexivity; apply round_aux_opp.
Qed.

Lemma SFmul_opp_r a b : SF64mul a (SFopp b) = SFopp (SF64mul a b).
Proof.
  unfold SF64mul; destruct a, b; simpl; rewrite <- ?negb_xorb_r;
    try reflexivity; apply round_aux_opp.
Qed.

Lemma SFdiv_opp_l a b : SF64div (SFopp a) b = SFopp (SF64div a b).
Proof.
  unfold SF64div; destruct a, b; simpl; rewrite <- ?negb_xorb_l; try reflexivity.
  destruct (SFdiv_core_binary _ _ _ _ _ _) as [[mz ez] lz]. apply round_aux_opp.
Qed.

Lemma SFadd_opp a b :
  sf_sim (SF64add (SFopp a) (SFopp b)) (SFopp (SF64add a b)).
Proof.
  unfold SF64add; destruct a as [sa|sa| |sa ma ea], b as [sb|sb| |sb mb eb];
    simpl; try exact I; try reflexivity;
    try (destruct sa, sb; simpl; solve [exact I | reflexivity]).
  set (x := Zpos (fst (shl_align ma ea (Z.min ea eb)))).
  set (y := Zpos (fst (shl_align mb eb (Z.min ea eb)))).
  assert (E : (cond_Zopp (negb sa) x + cond_Zopp (negb sb) y
               = - (cond_Zopp sa x + cond_Zopp sb y))%Z)
    by (clearbody x y; destruct sa, sb; unfold cond_Zopp; simpl negb; cbv iota; lia).
  rewrite E. destruct (cond_Zopp sa x + cond_Zopp sb y)%Z; simpl.
  - exact I.
  - rewrite <- (round_opp false). apply sf_sim_refl.
  - rewrite <- (round_opp true). apply sf_sim_refl.
Qed.

Lemma sf_sim_opp a b : sf_sim a b -> sf_sim (SFopp a) (SFopp b).
Proof. destruct a, b; simpl; intros H; try exact I; inversion H; reflexivity. Qed.

Lemma sf_sim_mul a a' b b' :
  sf_sim a a' -> sf_sim b b' -> sf_sim (SF64mul a b) (SF64mul a' b').
Proof.
  unfold SF64mul;
    destruct a, a'; simpl; intros Ha;
    try (inversion Ha; subst; clear Ha);
    destruct b, b'; simpl; intros Hb;
    try (inversion Hb; subst; clear Hb); try exact I; try reflexivity;
    apply sf_sim_refl.
Qed.

Lemma sf_sim_div a a' b : sf_sim a a' -> sf_sim (SF64div a b) (SF64div a' b).
Proof.
  unfold SF64div;
    destruct a, a'; simpl; intros Ha;
    try (inversion Ha; subst; clear Ha); destruct b; simpl; try exact I; try reflexivity;
    apply sf_sim_refl.
Qed.

Lemma sf_sim_add a a' b b' :
  sf_sim a a' -> sf_sim b b' -> sf_sim (SF64add a b) (SF64add a' b').
Proof.
  unfold SF64add;
    destruct a, a'; simpl; intros Ha;
    try (inversion Ha; subst; clear Ha);
    destruct b, b'; simpl; intros Hb;
    try (inversion Hb; subst; clear Hb); try exact I; try reflexivity;
    try apply sf_sim_refl;
    repeat match goal with s : bool |- _ => destruct s end; simpl; auto.
Qed.

Lemma sf_sim_sqrt a a' : sf_sim a a' -> sf_sim (SF64sqrt a) (SF64sqrt a').
Proof.
  unfold SF64sqrt; destruct a, a'; simpl; intros Ha;
    try (inversion Ha; subst; clear Ha); try exact I;
    repeat match goal with s : bool |- _ => destruct s end;
    first [reflexivity | apply sf_sim_refl].
Qed.

Lemma sf_sim_compare a a' b b' :
  sf_sim a a' -> sf_sim b b' -> SFcompare a b = SFcompare a' b'.
Proof.
  destruct a, a'; simpl; intros Ha;
    try (inversion Ha; subst; clear Ha);
    destruct b, b'; simpl; intros Hb;
    try (inversion Hb; subst; clear Hb); reflexivity.
Qed.

#[global] Instance feq_equiv : Equivalence feq.
Proof.
  split.
  - intros x. apply sf_sim_refl.
  - intros x y. apply sf_sim_sym.
  - intros x y z. apply sf_sim_trans.
Qed.

#[global] Instance mul_feq : Proper (feq ==> feq ==> feq) mul.
Proof. intros a a' Ha b b' Hb. unfold feq. rewrite !mul_spec. now apply sf_sim_mul. Qed.

#[global] Instance add_feq : Proper (feq ==> feq ==> feq) add.
Proof. intros a a' Ha b b' Hb. unfold feq. rewrite !add_spec. now apply sf_sim_add. Qed.

#[global] Instance div_feq : Proper (feq ==> eq ==> feq) div.
Proof. intros a a' Ha b b' <-. unfold feq. rewrite !div_spec. now apply sf_sim_div. Qed.

#[global] Instance opp_feq : Proper (feq ==> feq) opp.
Proof. intros a a' Ha. unfold feq. rewrite !opp_spec. now apply sf_sim_opp. Qed.

#[global] Instance sqrt_feq : Proper (feq ==> feq) sqrt.
Proof. intros a a' Ha. unfold feq. rewrite !sqrt_spec. now apply sf_sim_sqrt. Qed.

#[global] Instance ltb_feq : Proper (feq ==> feq ==> eq) ltb.
Proof.
  intros a a' Ha b b' Hb. rewrite !ltb_spec. unfold SFltb.
  now rewrite (sf_sim_compare _ _ _ _ Ha Hb).
Qed.

Lemma SFcompare_refl a : a <> S754_nan -> SFcompare a a = Some Eq.
Proof.
  destruct a as [s|s| |s m e]; simpl; intros H; try reflexivity.
  - destruct s; reflexivity.
  - congruence.
  - rewrite Z.compare_refl, Pos.compare_cont_refl. destruct s; reflexivity.
Qed.

Lemma feq_same x y : feq x y -> same x y = true.
Proof.
  unfold feq, same, is_nan. rewrite !FloatAxioms.eqb_spec. unfold SFeqb.
  destruct (Prim2SF x) as [s|s| |s m e] eqn:Ex; destruct (Prim2SF y) as [s'|s'| |s' m' e'] eqn:Ey;
    simpl; intros H; try exact I; try discriminate H; try reflexivity;
    inversion H; subst.
  - destruct s'; reflexivity.
  - rewrite Z.compare_refl, Pos.compare_cont_refl. destruct s'; reflexivity.
Qed.

Lemma opp_invol a : - - a = a.
Proof. apply Prim2SF_inj. rewrite !opp_spec. apply SFopp_invol. Qed.

Lemma mul_opp_l a b : (- a) * b = - (a * b).
Proof. apply Prim2SF_inj. rewrite opp_spec, !mul_spec, opp_spec. apply SFmul_opp_l. Qed.

Lemma mul_opp_r a b : a * (- b) = - (a * b).
Proof. apply Prim2SF_inj. rewrite opp_spec, !mul_spec, opp_spec. apply SFmul_opp_r. Qed.

Lemma div_opp_l a b : (- a) / b = - (a / b).
Proof. apply Prim2SF_inj. rewrite opp_spec, !div_spec, opp_spec. apply SFdiv_opp_l. Qed.

Lemma add_opp a b : feq ((- a) + (- b)) (- (a + b)).
Proof. unfold feq. rewrite opp_spec, !add_spec, !opp_spec. apply SFadd_opp. Qed.

(** Classification, read off the specification. *)

Lemma is_zero_spec x : is_zero x = sf_zero (Prim2SF x).
Proof.
  unfold is_zero. rewrite FloatAxioms.eqb_spec. change (Prim2SF zero) with (S754_zero false).
  destruct (Prim2SF x) as [s|s| |s m e]; try reflexivity; destruct s; reflexivity.
Qed.

Lemma is_nan_spec x :
  is_nan x = match Prim2SF x with S754_nan => true | _ => false end.
Proof.
  unfold is_nan. rewrite FloatAxioms.eqb_spec. unfold SFeqb.
  destruct (Prim2SF x) as [s|s| |s m e] eqn:E; try reflexivity;
    rewrite SFcompare_refl by discriminate; reflexivity.
Qed.

Lemma is_finite_spec x : is_finite x = sf_fin (Prim2SF x).
Proof.
  unfold is_finite, is_infinity. rewrite is_nan_spec, FloatAxioms.eqb_spec, abs_spec.
  change (Prim2SF infinity) with (S754_infinity false).
  destruct (Prim2SF x) as [s|s| |s m e]; reflexivity.
Qed.

#[global] Instance is_finite_feq : Proper (feq ==> eq) is_finite.
Proof.
  intros a a' H. rewrite !is_finite_spec. unfold feq in H.
  destruct (Prim2SF a), (Prim2SF a'); simpl in *; try reflexivity; discriminate H.
Qed.

Lemma is_finite_opp a : is_finite (- a) = is_finite a.
Proof. rewrite !is_finite_spec, opp_spec. destruct (Prim2SF a); reflexivity. Qed.

Lemma zero_mul_finite a b :
  is_zero a = true -> is_finite b = true -> is_zero (a * b) = true.
Proof.
  rewrite !is_zero_spec, is_finite_spec, mul_spec.
  destruct (Prim2SF a), (Prim2SF b); simpl; congruence.
Qed.

Lemma zero_is_finite a : is_zero a = true -> is_finite a = true.
Proof. rewrite is_zero_spec, is_finite_spec. destruct (Prim2SF a); simpl; congruence. Qed.

Lemma zero_div a b :
  is_zero a = true -> is_zero b = false -> is_nan b = false -> is_zero (a / b) = true.
Proof.
  rewrite !is_zero_spec, is_nan_spec, div_spec.
  destruct (Prim2SF a), (Prim2SF b); simpl; congruence.
Qed.

Lemma add_zero_r a b : is_zero b = true -> feq (a + b) a.
Proof.
  rewrite is_zero_spec. unfold feq. rewrite add_spec.
  destruct (Prim2SF a) as [s|s| |s m e], (Prim2SF b) as [s'|s'| |s' m' e'];
    simpl; try discriminate; intros _; try exact I; try reflexivity.
  destruct s, s'; exact I.
Qed.

Lemma pzero_add_zero b : is_zero b = true -> 0 + b = 0.
Proof.
  rewrite is_zero_spec. intros H. apply Prim2SF_inj. rewrite add_spec.
  change (Prim2SF 0) with (S754_zero false).
  destruct (Prim2SF b) as [s| | |]; try discriminate H. destruct s; reflexivity.
Qed.

Lemma SFcompare_Eq_sym a b : SFcompare a b = Some Eq -> SFcompare b a = Some Eq.
Proof.
  destruct a as [s|s| |s m e], b as [s'|s'| |s' m' e']; simpl;
    try discriminate; try reflexivity;
    try (destruct s; try discriminate; destruct s'; try discriminate; reflexivity).
  rewrite (Z.compare_antisym e e').
  assert (A : Pos.compare_cont Eq m' m = CompOpp (Pos.compare_cont Eq m m'))
    by (rewrite Pos.compare_cont_antisym; reflexivity).
  rewrite A.
  destruct s, s'; try discriminate; destruct (e ?= e')%Z; simpl; try discriminate;
    destruct (Pos.compare_cont Eq m m'); simpl; try discriminate; reflexivity.
Qed.

Lemma eqb_not_ltb a b : (a =? b) = true -> (b <? a) = false.
Proof.
  rewrite FloatAxioms.eqb_spec, ltb_spec. unfold SFeqb, SFltb. intros H.
  destruct (SFcompare (Prim2SF a) (Prim2SF b)) as [[| |]|] eqn:E; try discriminate H.
  now rewrite (SFcompare_Eq_sym _ _ E).
Qed.

(** The fused multiply-add: numbers in, numbers out, and the two signs of a
    square cancel. *)

Lemma SF2Prim_sim s1 s2 : sf_sim s1 s2 -> feq (SF2Prim s1) (SF2Prim s2).
Proof.
  destruct s1 as [s| | |], s2 as [s'| | |]; simpl; intros H;
    try (inversion H; subst; reflexivity).
  unfold feq. destruct s, s'; cbn [SF2Prim];
    change (Prim2SF zero) with (S754_zero false);
    change (Prim2SF neg_zero) with (S754_zero true); exact I.
Qed.

Lemma SFfma_sim x x' y y' z z' :
  sf_sim x x' -> sf_sim y y' -> sf_sim z z' ->
  sf_sim (SFfma x y z) (SFfma x' y' z').
Proof.
  intros Hx Hy Hz.
  destruct x as [sx|sx| |sx mx ex], x' as [sx'|sx'| |sx' mx' ex']; simpl in Hx;
    try (inversion Hx; subst; clear Hx);
    destruct y as [sy|sy| |sy my ey], y' as [sy'|sy'| |sy' my' ey']; simpl in Hy;
    try (inversion Hy; subst; clear Hy);
    cbn [SFfma]; try exact I; try reflexivity;
    try (apply sf_sim_add; [first [exact I | reflexivity] | exact Hz]).
  destruct z as [sz|sz| |sz mz ez], z' as [sz'|sz'| |sz' mz' ez']; simpl in Hz;
    try (inversion Hz; subst; clear Hz); try exact I; apply sf_sim_refl.
Qed.

Lemma SFfma_opp_opp x y z : SFfma (SFopp x) (SFopp y) z = SFfma x y z.
Proof.
  destruct x, y; cbn [SFfma SFopp]; rewrite ?xorb_negb_negb; reflexivity.
Qed.

#[global] Instance fma_feq : Proper (feq ==> feq ==> feq ==> feq) fma.
Proof.
  intros a a' Ha b b' Hb c c' Hc. unfold fma. now apply SF2Prim_sim, SFfma_sim.
Qed.

Lemma fma_opp_opp a b c : fma (- a) (- b) c = fma a b c.
Proof. unfold fma. now rewrite !opp_spec, SFfma_opp_opp. Qed.

End F64Facts.


(** ** The loop of the integrator *)

Module IntegratorFacts.

Import Np Integrator.

Arguments advance : simpl never.
Arguments exceeds : simpl never.
Arguments point_cm : simpl never.

Section Loop.

Variable cutoff : float.
Variables q m Bz dt : float.

#[local] Abbreviation advance := (advance q m Bz dt).
#[local] Abbreviation exceeds := (exceeds cutoff).
#[local] Abbreviation iteration := (iteration cutoff q m Bz dt).
#[local] Abbreviation for_range := (for_range cutoff q m Bz dt).
#[local] Abbreviation loops := (loops cutoff q m Bz dt).
#[local] Abbreviation pass := (pass cutoff q m Bz dt).

Lemma map_seq_shift {A} (g : nat -> A) (a k : nat) :
  map g (seq (S a) k) = map (fun j => g (S j)) (seq a k).
Proof. rewrite <- seq_shift, map_map. reflexivity. Qed.

Lemma now_pass f : now (pass f) = advance (now f).
Proof. reflexivity. Qed.

Lemma x_traj_pass f : x_traj (pass f) = x_traj f ++ [fst (point_cm (advance (now f)))].
Proof. reflexivity. Qed.

Lemma y_traj_pass f : y_traj (pass f) = y_traj f ++ [snd (point_cm (advance (now f)))].
Proof. reflexivity. Qed.

Lemma iteration_eq f : iteration f = (pass f, exceeds (advance (now f))).
Proof. reflexivity. Qed.

Lemma for_range_S n f :
  for_range (S n) f
  = if exceeds (advance (now f)) then (1%nat, pass f)
    else (S (fst (for_range n (pass f))), snd (for_range n (pass f))).
Proof.
  change (for_range (S n) f)
    with (let (f', stop) := iteration f in
          if stop then (1%nat, f')
          else let (k, f'') := for_range n f' in (S k, f'')).
  rewrite iteration_eq. destruct (exceeds _); [reflexivity|].
  destruct (for_range n (pass f)); reflexivity.
Qed.

#[local] Opaque Integrator.pass.

(** The loop never makes more passes than the range has values. *)
Lemma for_range_le n : forall f, (fst (for_range n f) <= n)%nat.
Proof.
  induction n as [|n IH]; intros f; [simpl; lia|].
  rewrite for_range_S. destruct (exceeds _); cbn [fst]; [lia|].
  specialize (IH (pass f)). lia.
Qed.

(** With a value left in the range, the body runs at least once. *)
Lemma for_range_pos n f : (1 <= fst (for_range (S n) f))%nat.
Proof. rewrite for_range_S. destruct (exceeds _); cbn [fst]; lia. Qed.

(** What the loop leaves: the particle after as many free steps as passes
    were made, and one point per pass, appended in order. *)
Lemma for_range_frame n : forall f,
  let r := for_range n f in
  now (snd r) = Nat.iter (fst r) advance (now f)
  /\ x_traj (snd r)
     = x_traj f ++ map (fun j => fst (point_cm (Nat.iter j advance (now f)))) (seq 1 (fst r))
  /\ y_traj (snd r)
     = y_traj f ++ map (fun j => snd (point_cm (Nat.iter j advance (now f)))) (seq 1 (fst r)).
Proof.
  induction n as [|n IH]; intros f; cbv zeta.
  - cbn [Integrator.for_range fst snd seq map Nat.iter nat_rect]. rewrite !app_nil_r. auto.
  - rewrite for_range_S. destruct (exceeds _) eqn:E; cbn [fst snd].
    + rewrite now_pass, x_traj_pass, y_traj_pass. auto.
    + destruct (IH (pass f)) as (Hp & Hx & Hy). rewrite Hp, Hx, Hy.
      rewrite now_pass, x_traj_pass, y_traj_pass, <- !app_assoc.
      change (seq 1 (S (fst (for_range n (pass f)))))
        with (1%nat :: seq 2 (fst (for_range n (pass f)))).
      rewrite !map_cons, !(map_seq_shift _ 1).
      repeat split.
      * now rewrite <- Nat.iter_succ_r.
      * cbn [app]. do 2 f_equal. apply map_ext. intros j.
        now rewrite Nat.iter_succ_r.
      * cbn [app]. do 2 f_equal. apply map_ext. intros j.
        now rewrite Nat.iter_succ_r.
Qed.

(** No pass before the last one saw the cutoff exceeded. *)
Lemma for_range_within n : forall f j,
  (1 <= j < fst (for_range n f))%nat ->
  exceeds (Nat.iter j advance (now f)) = false.
Proof.
  induction n as [|n IH]; intros f j; [simpl; lia|].
  rewrite for_range_S. destruct (exceeds _) eqn:E; cbn [fst]; [lia|].
  intros Hj. destruct j as [|[|j]]; [lia|exact E|].
  rewrite Nat.iter_succ_r, <- now_pass. apply IH. lia.
Qed.

(** A loop that stops short stopped on a pass that saw the cutoff exceeded. *)
Lemma for_range_early n : forall f,
  (fst (for_range n f) < n)%nat ->
  exceeds (Nat.iter (fst (for_range n f)) advance (now f)) = true.
Proof.
  induction n as [|n IH]; intros f; [simpl; lia|].
  rewrite for_range_S. destruct (exceeds _) eqn:E; cbn [fst]; [intros _; exact E|].
  intros Hk. rewrite Nat.iter_succ_r, <- now_pass. apply IH. lia.
Qed.

(** The pass that first sees the cutoff exceeded is the last one. *)
Lemma for_range_first n : forall f j,
  (1 <= j <= n)%nat ->
  exceeds (Nat.iter j advance (now f)) = true ->
  (forall i, (1 <= i < j)%nat -> exceeds (Nat.iter i advance (now f)) = false) ->
  fst (for_range n f) = j.
Proof.
  induction n as [|n IH]; intros f j Hj Hex Hbefore; [lia|].
  rewrite for_range_S. destruct (exceeds (advance (now f))) eqn:E; cbn [fst].
  - destruct j as [|[|j]]; [lia|reflexivity|].
    pose proof (Hbefore 1%nat ltac:(lia)) as H1. cbn [Nat.iter nat_rect] in H1. congruence.
  - destruct j as [|[|j]]; [lia|cbn [Nat.iter nat_rect] in Hex; congruence|].
    f_equal. apply IH.
    + lia.
    + rewrite now_pass, <- Nat.iter_succ_r. exact Hex.
    + intros i Hi. rewrite now_pass, <- Nat.iter_succ_r. apply Hbefore. lia.
Qed.

(** A loop whose passes never see the cutoff exceeded uses the whole range. *)
Lemma for_range_full n f :
  (forall i, (1 <= i < n)%nat -> exceeds (Nat.iter i advance (now f)) = false) ->
  fst (for_range n f) = n.
Proof.
  intros H. pose proof (for_range_le n f) as Hle.
  destruct (Nat.eq_dec (fst (for_range n f)) n) as [|Hne]; [assumption|].
  assert (Hlt : (fst (for_range n f) < n)%nat) by lia.
  pose proof (for_range_early n f Hlt) as Hex.
  destruct n as [|n]; [lia|].
  pose proof (for_range_pos n f).
  rewrite H in Hex by lia. discriminate.
Qed.

(** The function computes the relation, and the relation has one outcome. *)
Lemma for_range_loops n : forall f, loops n f (fst (for_range n f)) (snd (for_range n f)).
Proof.
  induction n as [|n IH]; intros f.
  - constructor.
  - rewrite for_range_S. destruct (exceeds _) eqn:E; cbn [fst snd].
    + apply loops_break. now rewrite iteration_eq, E.
    + eapply loops_next; [|apply IH]. now rewrite iteration_eq, E.
Qed.

Lemma loops_functional n f k f' :
  loops n f k f' -> k = fst (for_range n f) /\ f' = snd (for_range n f).
Proof.
  induction 1 as [f|n f f' Hi|n f f' k f'' Hi Hl IH].
  - auto.
  - rewrite for_range_S. rewrite iteration_eq in Hi. inversion Hi as [[Hf He]].
    rewrite He, Hf. auto.
  - rewrite for_range_S. rewrite iteration_eq in Hi. inversion Hi as [[Hf He]].
    rewrite He, Hf. destruct IH as [-> ->]. auto.
Qed.

(** *** Whole runs *)

Variable v0 : float.

#[local] Abbreviation orbit := (orbit v0 q m Bz dt).
#[local] Abbreviation passes steps := (passes cutoff v0 q m Bz steps dt).
#[local] Abbreviation simulate steps := (simulate_trajectory cutoff v0 q m Bz steps dt).

Lemma xs_orbit steps :
  fst (simulate steps) = map (fun j => fst (point_cm (orbit j))) (seq 1 (passes steps)).
Proof.
  unfold Integrator.simulate_trajectory, Integrator.passes, Integrator.run.
  destruct (for_range_frame (Z.to_nat steps) (entry v0)) as (_ & Hx & _).
  exact Hx.
Qed.

Lemma ys_orbit steps :
  snd (simulate steps) = map (fun j => snd (point_cm (orbit j))) (seq 1 (passes steps)).
Proof.
  unfold Integrator.simulate_trajectory, Integrator.passes, Integrator.run.
  destruct (for_range_frame (Z.to_nat steps) (entry v0)) as (_ & _ & Hy).
  exact Hy.
Qed.

Lemma xs_length steps : List.length (fst (simulate steps)) = passes steps.
Proof. now rewrite xs_orbit, length_map, length_seq. Qed.

Lemma ys_length steps : List.length (snd (simulate steps)) = passes steps.
Proof. now rewrite ys_orbit, length_map, length_seq. Qed.

Lemma passes_le steps : (passes steps <= Z.to_nat steps)%nat.
Proof. apply for_range_le. Qed.

Lemma passes_pos steps : (1 <= steps)%Z -> (1 <= passes steps)%nat.
Proof.
  intros H. unfold Integrator.passes, Integrator.run.
  destruct (Z.to_nat steps) as [|n] eqn:E; [lia|]. apply for_range_pos.
Qed.

Lemma passes_none steps : (steps <= 0)%Z -> passes steps = 0%nat.
Proof.
  intros H. unfold Integrator.passes, Integrator.run.
  replace (Z.to_nat steps) with 0%nat by lia. reflexivity.
Qed.

Lemma passes_within steps j :
  (1 <= j < passes steps)%nat -> exceeds (orbit j) = false.
Proof. apply (for_range_within (Z.to_nat steps) (entry v0)). Qed.

Lemma passes_early steps :
  (passes steps < Z.to_nat steps)%nat -> exceeds (orbit (passes steps)) = true.
Proof. apply (for_range_early (Z.to_nat steps) (entry v0)). Qed.

Lemma passes_first steps k :
  (1 <= k <= Z.to_nat steps)%nat ->
  exceeds (orbit k) = true ->
  (forall j, (1 <= j < k)%nat -> exceeds (orbit j) = false) ->
  passes steps = k.
Proof. apply (for_range_first (Z.to_nat steps) (entry v0)). Qed.

Lemma point_at steps i :
  (i < passes steps)%nat ->
  nth_error (combine (fst (simulate steps)) (snd (simulate steps))) i
  = Some (point_cm (orbit (S i))).
Proof.
  intros Hi. rewrite xs_orbit, ys_orbit.
  assert (G : forall (l : list nat),
             combine (map (fun j => fst (point_cm (orbit j))) l)
                     (map (fun j => snd (point_cm (orbit j))) l)
             = map (fun j => point_cm (orbit j)) l).
  { induction l as [|a l IHl]; cbn [map combine]; [reflexivity|].
    rewrite IHl. now destruct (point_cm (orbit a)). }
  rewrite G, nth_error_map, nth_error_seq.
  destruct (Nat.ltb_spec i (passes steps)); [reflexivity|lia].
Qed.

End Loop.

(** *** Reversing the charge *)

Ltac unfold_step :=
  cbv [advance lscale take2 cross rdiv iadd rscale point_cm exceeds norm dot
       pos vel at0 at1 el0 el1 el2 fst snd] in *.

Section Mirror.

Import F64 F64Facts.

Variable cutoff : float.
Variables q m Bz dt : float.

Lemma start_mirrored v0 : mirrored (start v0) (start v0).
Proof. repeat split; try reflexivity; exact I. Qed.

Lemma advance_mirrored p p' :
  mirrored p p' -> mirrored (advance q m Bz dt p) (advance (- q) m Bz dt p').
Proof.
  destruct p as [[x y] [vx vy]], p' as [[x' y'] [vx' vy']].
  unfold mirrored. unfold_step. intros (Hx & Hy & Hvx & Hvy).
  assert (Ax : feq (vx' + - q * (vy' * Bz) / m * dt) (vx + q * (vy * Bz) / m * dt)).
  { rewrite Hvx, Hvy. now rewrite !mul_opp_l, mul_opp_r, opp_invol. }
  assert (Ay : feq (vy' + - q * - (vx' * Bz) / m * dt)
                   (- (vy + q * - (vx * Bz) / m * dt))).
  { rewrite Hvx, Hvy. rewrite (mul_opp_l q), div_opp_l, mul_opp_l. apply add_opp. }
  repeat split; try assumption.
  - now rewrite Hx, Ax.
  - rewrite Hy, Ay, mul_opp_l. apply add_opp.
Qed.

Lemma orbit_mirrored v0 k :
  mirrored (orbit v0 q m Bz dt k) (orbit v0 (- q) m Bz dt k).
Proof.
  unfold orbit. induction k as [|k IH]; cbn [Nat.iter nat_rect].
  - apply start_mirrored.
  - now apply advance_mirrored.
Qed.

Lemma exceeds_mirrored p p' : mirrored p p' -> exceeds cutoff p' = exceeds cutoff p.
Proof.
  destruct p as [[x y] [vx vy]], p' as [[x' y'] [vx' vy']].
  unfold mirrored. unfold_step. intros (Hx & Hy & _).
  apply ltb_feq; [reflexivity|].
  rewrite Hx, Hy. now rewrite fma_opp_opp.
Qed.

Lemma for_range_mirrored n : forall f f',
  mirrored (now f) (now f') ->
  fst (for_range cutoff (- q) m Bz dt n f') = fst (for_range cutoff q m Bz dt n f).
Proof.
  induction n as [|n IH]; intros f f' H; [reflexivity|].
  rewrite !for_range_S.
  pose proof (advance_mirrored _ _ H) as H'.
  rewrite (exceeds_mirrored _ _ H').
  destruct (exceeds cutoff _); cbn [fst]; [reflexivity|].
  f_equal. apply IH. now rewrite !now_pass.
Qed.

Lemma passes_mirrored v0 steps :
  passes cutoff v0 (- q) m Bz steps dt = passes cutoff v0 q m Bz steps dt.
Proof. apply for_range_mirrored, start_mirrored. Qed.

Lemma point_mirrored p p' :
  mirrored p p' ->
  same (fst (point_cm p)) (fst (point_cm p')) = true
  /\ same (snd (point_cm p')) (- snd (point_cm p)) = true.
Proof.
  destruct p as [[x y] [vx vy]], p' as [[x' y'] [vx' vy']].
  unfold mirrored. unfold_step. intros (Hx & Hy & _). split; apply feq_same.
  - now rewrite Hx.
  - now rewrite Hy, mul_opp_l.
Qed.

End Mirror.

(** *** A particle without charge *)

Section Neutral.

Import F64 F64Facts.

Variables q m Bz dt v0 : float.
Hypothesis q_zero : is_zero q = true.
Hypothesis m_nonzero : is_zero m = false.
Hypothesis m_number : is_nan m = false.
Hypothesis Bz_finite : is_finite Bz = true.
Hypothesis dt_finite : is_finite dt = true.
Hypothesis v0Bz_finite : is_finite (v0 * Bz) = true.

Lemma no_push (w : float) : is_finite w = true -> is_zero (q * w / m * dt) = true.
Proof.
  intros Hw. apply zero_mul_finite; [|exact dt_finite].
  apply zero_div; [|exact m_nonzero|exact m_number].
  now apply zero_mul_finite.
Qed.

Lemma start_on_axis : on_axis v0 (start v0).
Proof. repeat split; reflexivity. Qed.

Lemma advance_on_axis p : on_axis v0 p -> on_axis v0 (advance q m Bz dt p).
Proof.
  destruct p as [[x y] [vx vy]]. unfold on_axis. unfold_step.
  intros (-> & -> & Hvx).
  assert (Hvy : 0 + q * - (vx * Bz) / m * dt = 0).
  { apply pzero_add_zero, no_push. now rewrite is_finite_opp, Hvx. }
  rewrite Hvy. repeat split.
  - apply pzero_add_zero, zero_mul_finite; [reflexivity|exact dt_finite].
  - transitivity vx; [|exact Hvx]. apply add_zero_r, no_push.
    apply zero_is_finite, zero_mul_finite; [reflexivity|exact Bz_finite].
Qed.

Lemma orbit_on_axis k : on_axis v0 (orbit v0 q m Bz dt k).
Proof.
  unfold orbit. induction k as [|k IH]; cbn [Nat.iter nat_rect].
  - apply start_on_axis.
  - now apply advance_on_axis.
Qed.

End Neutral.

End IntegratorFacts.

(** * The claims *)

Import Np Integrator F64 F64Facts IntegratorFacts.

(** ** C1: the loop body *)

Lemma advance_semi_implicit q m Bz dt p :
  advance q m Bz dt p = semi_implicit_step q m Bz dt p.
Proof.
  destruct p as [[x y] [vx vy]].
  cbv [advance semi_implicit_step lorentz_force lscale take2 cross rdiv iadd rscale
       pos vel at0 at1 el0 el1 el2].
  now rewrite mul_opp_r.
Qed.

Lemma orbit_semi_implicit v0 q m Bz dt k :
  orbit v0 q m Bz dt k = Nat.iter k (semi_implicit_step q m Bz dt) (start v0).
Proof.
  unfold orbit. induction k as [|k IH]; [reflexivity|].
  now rewrite !Nat.iter_succ, IH, advance_semi_implicit.
Qed.

(** C1. Every pass through the loop takes the state to the one the
    specification describes: the force is [(q vy Bz, - q vx Bz)], the
    acceleration is the force over [m], the velocity moves by [a dt], the
    position moves by the new velocity times [dt], and the point appended to
    each output list is the new position times 100.  So the [j]-th point a
    call returns is 100 times the position after [j] such steps from the
    start.  This holds for every [m], zero included. *)
Theorem C1_pass_is_semi_implicit_step :
  forall cutoff v0 q m Bz steps dt,
    (forall f : frame,
       let p' := semi_implicit_step q m Bz dt (now f) in
       iteration cutoff q m Bz dt f
       = (Frame p' (x_traj f ++ [at0 (pos p') * 100]) (y_traj f ++ [at1 (pos p') * 100]),
          exceeds cutoff p'))
    /\ simulate_trajectory cutoff v0 q m Bz steps dt
       = (map (fun j => at0 (pos (Nat.iter j (semi_implicit_step q m Bz dt) (start v0))) * 100)
              (seq 1 (passes cutoff v0 q m Bz steps dt)),
          map (fun j => at1 (pos (Nat.iter j (semi_implicit_step q m Bz dt) (start v0))) * 100)
              (seq 1 (passes cutoff v0 q m Bz steps dt))).
Proof.
  intros cutoff v0 q m Bz steps dt. split.
  - intros f p'. subst p'. rewrite <- advance_semi_implicit. reflexivity.
  - rewrite (surjective_pairing (simulate_trajectory cutoff v0 q m Bz steps dt)).
    rewrite xs_orbit, ys_orbit. f_equal; apply map_ext; intros j;
      now rewrite orbit_semi_implicit.
Qed.

(** ** C2: parameters are not validated *)

(** C2, refuted as stated. With [dt = 0] and [m = -1], both non-positive, the
    call does not raise: it makes two passes and returns two points. *)
Lemma C2_counterexample :
  (0 <=? 0) = true /\ (-1 <=? 0) = true
  /\ call_simulate_trajectory 1 1 (-1) 1 2 0 <> Raised InvalidParameter
  /\ passes cutoff_distance 1 1 (-1) 1 2 0 = 2%nat
  /\ List.length (fst (simulate_trajectory cutoff_distance 1 1 (-1) 1 2 0)) = 2%nat.
Proof. repeat split; try reflexivity. discriminate. Qed.

(** C2, amended. The integrator checks none of its parameters and never
    raises: whatever [dt], [m] and the cutoff are, non-positive values
    included, the call returns the trajectory; it has at least one point as
    soon as [steps >= 1], and for [steps <= 0] no pass is made and the
    trajectory is empty. *)
Theorem C2_no_validation :
  forall cutoff v0 q m Bz steps dt,
    call cutoff v0 q m Bz steps dt
    = Returned (simulate_trajectory cutoff v0 q m Bz steps dt)
    /\ call cutoff v0 q m Bz steps dt <> Raised InvalidParameter
    /\ ((1 <= steps)%Z ->
        (1 <= passes cutoff v0 q m Bz steps dt)%nat
        /\ (1 <= List.length (fst (simulate_trajectory cutoff v0 q m Bz steps dt)))%nat
        /\ (1 <= List.length (snd (simulate_trajectory cutoff v0 q m Bz steps dt)))%nat)
    /\ ((steps <= 0)%Z ->
        passes cutoff v0 q m Bz steps dt = 0%nat
        /\ simulate_trajectory cutoff v0 q m Bz steps dt = ([], [])).
Proof.
  intros cutoff v0 q m Bz steps dt.
  split; [reflexivity|]. split; [discriminate|]. split; intros H.
  - rewrite xs_length, ys_length. repeat split; now apply passes_pos.
  - split; [now apply passes_none|].
    unfold simulate_trajectory, run.
    replace (Z.to_nat steps) with 0%nat by lia. reflexivity.
Qed.

(** C2 at [steps = 3] and at [steps = 0], with [dt = 0], [m = -1] and a
    cutoff of [-5]. *)
Lemma C2_no_validation_witness :
  (0 <=? 0) = true /\ (-1 <=? 0) = true /\ (-5 <=? 0) = true
  /\ (1 <= 3)%Z
  /\ (1 <= List.length (fst (simulate_trajectory (-5) 1 1 (-1) 1 3 0)))%nat
  /\ (0 <= 0)%Z
  /\ simulate_trajectory (-5) 1 1 (-1) 1 0 0 = ([], []).
Proof.
  destruct (C2_no_validation (-5) 1 1 (-1) 1 3 0) as (_ & _ & H1 & _).
  destruct (C2_no_validation (-5) 1 1 (-1) 1 0 0) as (_ & _ & _ & H0).
  repeat (split; [reflexivity|]).
  split; [lia|]. split; [apply H1; lia|]. split; [lia|]. apply H0. lia.
Defined.

(** ** C3: the number of points *)

(** C3. For a step budget [steps >= 0], the trajectory has at most [steps]
    points, and fewer than [steps] exactly when at some step [k] before the
    last one, [1 <= k < steps], the Euclidean norm of the position, in
    meters, was greater than the cutoff. *)
Theorem C3_point_count :
  forall cutoff v0 q m Bz steps dt,
    (0 <= steps)%Z ->
    let n := Z.of_nat (List.length (fst (simulate_trajectory cutoff v0 q m Bz steps dt))) in
    (n <= steps)%Z
    /\ ((n < steps)%Z <->
        exists k, (1 <= Z.of_nat k < steps)%Z
                  /\ (cutoff <? norm (pos (orbit v0 q m Bz dt k))) = true).
Proof.
  intros cutoff v0 q m Bz steps dt Hs n. subst n. rewrite xs_length.
  pose proof (passes_le cutoff q m Bz dt v0 steps) as Hle.
  split; [lia|]. split.
  - intros Hlt. exists (passes cutoff v0 q m Bz steps dt). split.
    + assert (1 <= passes cutoff v0 q m Bz steps dt)%nat by (apply passes_pos; lia). lia.
    + apply (passes_early cutoff q m Bz dt v0 steps). lia.
  - intros (k & Hk & Hex).
    destruct (Z_lt_le_dec (Z.of_nat (passes cutoff v0 q m Bz steps dt)) steps) as [|Hge];
      [assumption|].
    change (exceeds cutoff (orbit v0 q m Bz dt k) = true) in Hex.
    rewrite (passes_within cutoff q m Bz dt v0 steps k) in Hex by lia. discriminate.
Qed.

(** C3 on a run of budget 5 that stops after its second pass, 40 m out. *)
Lemma C3_point_count_witness :
  (0 <= 5)%Z
  /\ (20 <? norm (pos (orbit 20 0 1 0 1 2))) = true
  /\ (Z.of_nat (List.length (fst (simulate_trajectory 20 20 0 1 0 5 1))) < 5)%Z.
Proof.
  split; [lia|]. split; [reflexivity|].
  apply (proj2 (C3_point_count 20 20 0 1 0 5 1 ltac:(lia))).
  exists 2%nat. split; [lia|reflexivity].
Defined.

(** ** C4: the cutoff is inclusive *)

(** C4. The points returned are those of the steps the loop made, in order.
    Every step but the last one made had a position whose norm did not
    exceed the cutoff; and if step [k] (within the budget) is the first whose
    position has a norm greater than the cutoff, the loop stops there with
    that step's point kept: the trajectory has exactly [k] points and its
    last one is the point of step [k]. *)
Theorem C4_inclusive_cutoff :
  forall cutoff v0 q m Bz steps dt,
    let xy := simulate_trajectory cutoff v0 q m Bz steps dt in
    let points := combine (fst xy) (snd xy) in
    (forall i, (i < List.length points)%nat ->
       nth_error points i = Some (point_cm (orbit v0 q m Bz dt (S i))))
    /\ (forall i, (S i < List.length points)%nat ->
          (cutoff <? norm (pos (orbit v0 q m Bz dt (S i)))) = false)
    /\ (forall k,
          (1 <= k <= Z.to_nat steps)%nat ->
          (cutoff <? norm (pos (orbit v0 q m Bz dt k))) = true ->
          (forall j, (1 <= j < k)%nat ->
             (cutoff <? norm (pos (orbit v0 q m Bz dt j))) = false) ->
          List.length points = k
          /\ nth_error points (k - 1) = Some (point_cm (orbit v0 q m Bz dt k))).
Proof.
  intros cutoff v0 q m Bz steps dt xy points.
  assert (Hlen : List.length points = passes cutoff v0 q m Bz steps dt).
  { subst points xy. rewrite length_combine, xs_length, ys_length. lia. }
  rewrite Hlen. split; [|split].
  - intros i Hi. now apply point_at.
  - intros i Hi. apply (passes_within cutoff q m Bz dt v0 steps). lia.
  - intros k Hk Hex Hbefore.
    pose proof (passes_first cutoff q m Bz dt v0 steps k Hk Hex Hbefore) as Hp.
    split; [exact Hp|].
    subst points xy. rewrite (point_at cutoff q m Bz dt v0 steps (k - 1)) by lia.
    replace (S (k - 1)) with k by lia. reflexivity.
Qed.

(** C4 on the same run: the second position, 40 m out, is kept and is last. *)
Lemma C4_inclusive_cutoff_witness :
  let xy := simulate_trajectory 20 20 0 1 0 5 1 in
  (20 <? norm (pos (orbit 20 0 1 0 1 1))) = false
  /\ (20 <? norm (pos (orbit 20 0 1 0 1 2))) = true
  /\ List.length (combine (fst xy) (snd xy)) = 2%nat
  /\ nth_error (combine (fst xy) (snd xy)) 1 = Some (4000, 0).
Proof.
  assert (H1 : (1 <= 2 <= Z.to_nat 5)%nat) by lia.
  assert (H2 : (20 <? norm (pos (orbit 20 0 1 0 1 2))) = true) by reflexivity.
  assert (H3 : forall j, (1 <= j < 2)%nat ->
                 (20 <? norm (pos (orbit 20 0 1 0 1 j))) = false).
  { intros j Hj. assert (j = 1%nat) as -> by lia. reflexivity. }
  destruct (C4_inclusive_cutoff 20 20 0 1 0 5 1) as (_ & _ & Hk).
  destruct (Hk 2%nat H1 H2 H3) as (Hl & Hn).
  split; [reflexivity|]. split; [exact H2|]. split; [exact Hl|exact Hn].
Defined.

(** ** C5: a particle without charge *)

(** C5, refuted as stated. With [q = 0] and [m = 1], the finite arguments
    [v0 = 1e200] and [Bz = 1e200] make [vx * Bz] overflow, the force
    [0 * inf] is NaN, and the y-coordinate returned is NaN, not 0. *)
Lemma C5_counterexample :
  (1 =? 0) = false
  /\ snd (simulate_trajectory cutoff_distance 1e200 0 1 1e200 1 1) = [nan]
  /\ ~ Forall (fun y => (y =? 0) = true)
         (snd (simulate_trajectory cutoff_distance 1e200 0 1 1e200 1 1)).
Proof.
  split; [reflexivity|]. split; [reflexivity|].
  intros H. vm_compute in H. inversion H as [|y l Hy Hl]. discriminate Hy.
Qed.

(** C5, amended. With [q = 0], a mass that is a number other than zero,
    finite [Bz] and [dt], and a product [v0 * Bz] that is finite in double
    precision, every y-coordinate of the trajectory is 0; the call returns a
    trajectory as for any other input. *)
Theorem C5_neutral_stays_on_axis :
  forall cutoff v0 q m Bz steps dt,
    is_zero q = true ->
    is_zero m = false -> is_nan m = false ->
    is_finite Bz = true -> is_finite dt = true ->
    is_finite (v0 * Bz) = true ->
    Forall (fun y => y = 0) (snd (simulate_trajectory cutoff v0 q m Bz steps dt))
    /\ call_simulate_trajectory v0 q m Bz steps dt <> Raised InvalidParameter.
Proof.
  intros cutoff v0 q m Bz steps dt Hq Hm Hm' HB Hdt Hv.
  split; [|discriminate].
  rewrite ys_orbit. apply Forall_map, Forall_forall. intros k _.
  destruct (orbit_on_axis q m Bz dt v0 Hq Hm Hm' HB Hdt Hv k) as (Hy & _).
  unfold point_cm. cbn [snd]. rewrite Hy. reflexivity.
Qed.

(** C5 at [v0 = 3], [m = 1], [Bz = 2], [dt = 1], four steps. *)
Lemma C5_neutral_stays_on_axis_witness :
  is_zero 0 = true /\ is_zero 1 = false /\ is_finite (3 * 2) = true
  /\ Forall (fun y => y = 0) (snd (simulate_trajectory cutoff_distance 3 0 1 2 4 1)).
Proof.
  repeat split; try reflexivity.
  apply (C5_neutral_stays_on_axis cutoff_distance 3 0 1 2 4 1); reflexivity.
Defined.

(** ** C6: reversing the charge *)

(** C6. The runs with charge [q] and with charge [- q], all else equal, make
    the same number of passes; point by point their x-coordinates are the same
    number and the y-coordinates of the second are those of the first negated
    (as numbers: [+0] and [-0] are the same number, and NaN matches NaN). *)
Theorem C6_charge_reversal_mirrors :
  forall cutoff v0 q m Bz steps dt,
    let xy := simulate_trajectory cutoff v0 q m Bz steps dt in
    let xy' := simulate_trajectory cutoff v0 (- q) m Bz steps dt in
    List.length (fst xy') = List.length (fst xy)
    /\ List.length (snd xy') = List.length (snd xy)
    /\ Forall2 (fun x x' => same x x' = true) (fst xy) (fst xy')
    /\ Forall2 (fun y y' => same y' (- y) = true) (snd xy) (snd xy').
Proof.
  intros cutoff v0 q m Bz steps dt xy xy'. subst xy xy'.
  rewrite !xs_length, !ys_length, !xs_orbit, !ys_orbit, !passes_mirrored.
  repeat split.
  - induction (seq 1 (passes cutoff v0 q m Bz steps dt)) as [|k l IH]; cbn [map];
      constructor; [|exact IH].
    apply (point_mirrored _ _ (orbit_mirrored q m Bz dt v0 k)).
  - induction (seq 1 (passes cutoff v0 q m Bz steps dt)) as [|k l IH]; cbn [map];
      constructor; [|exact IH].
    apply (point_mirrored _ _ (orbit_mirrored q m Bz dt v0 k)).
Qed.

(** An electron and a positron of unit charge and mass, three steps. *)
Example unit_charges_mirror :
  simulate_trajectory cutoff_distance 1 (-1) 1 1 3 0.5 = ([50; 87.5; 100], [25; 75; 143.75])
  /\ simulate_trajectory cutoff_distance 1 1 1 1 3 0.5 = ([50; 87.5; 100], [-25; -75; -143.75]).
Proof. split; reflexivity. Qed.

(** ** C7: termination *)

(** C7. For a step budget [steps >= 0] and any other arguments, a zero mass
    and non-finite numbers included, the loop comes to an end after at most
    [steps] passes, leaving the lists the function returns; no other
    execution of the loop exists. *)
Theorem C7_loop_terminates :
  forall cutoff v0 q m Bz steps dt,
    (0 <= steps)%Z ->
    exists k f',
      loops cutoff q m Bz dt (Z.to_nat steps) (entry v0) k f'
      /\ (Z.of_nat k <= steps)%Z
      /\ simulate_trajectory cutoff v0 q m Bz steps dt = (x_traj f', y_traj f')
      /\ forall k2 f2,
           loops cutoff q m Bz dt (Z.to_nat steps) (entry v0) k2 f2 ->
           k2 = k /\ f2 = f'.
Proof.
  intros cutoff v0 q m Bz steps dt Hs.
  exists (fst (run cutoff v0 q m Bz steps dt)), (snd (run cutoff v0 q m Bz steps dt)).
  split; [apply for_range_loops|]. split; [|split].
  - pose proof (passes_le cutoff q m Bz dt v0 steps) as H. unfold passes in H. lia.
  - reflexivity.
  - intros k2 f2 H. now apply loops_functional.
Qed.

(** C7 at a zero mass and a budget of 3. *)
Lemma C7_loop_terminates_witness :
  exists k f',
    loops cutoff_distance 1 0 1 1 (Z.to_nat 3) (entry 1) k f'
    /\ (Z.of_nat k <= 3)%Z
    /\ simulate_trajectory cutoff_distance 1 1 0 1 3 1 = (x_traj f', y_traj f').
Proof.
  destruct (C7_loop_terminates cutoff_distance 1 1 0 1 3 1 ltac:(lia))
    as (k & f' & Hl & Hk & Hs & _).
  exists k, f'. auto.
Defined.

(** With a zero mass the position is NaN from the first pass on, the test of
    line 69 never succeeds, and the loop stops on the budget alone. *)
Example zero_mass_runs_to_the_budget :
  simulate_trajectory cutoff_distance 1 1 0 1 3 1
  = ([nan; nan; nan], [neg_infinity; nan; nan])
  /\ passes cutoff_distance 1 1 0 1 3 1 = 3%nat.
Proof. split; reflexivity. Qed.

(** ** C8: the sweep driver *)

Import Sweep.

(** C8, refuted as stated. One execution of [main] calls the integrator
    eleven times, not twelve. *)
Lemma C8_counterexample : List.length (calls trace) <> 12%nat.
Proof. cbv -[simulate_trajectory PrimFloat.sqrt]. discriminate. Qed.

(** C8, amended. One execution of [main] calls the integrator exactly eleven
    times: for the three field strengths, the three energies and the three
    masses, then for the electron and for the positron; each call starts from
    [v0 = sqrt (2 Ek e / m)]; and the trajectories handed to the plotting sink
    are the results of these calls, one each, in the order of the calls. *)
Theorem C8_eleven_runs :
  List.length (calls trace) = 11%nat
  /\ map (fun c => let '(_, q, m, Bz) := c in (q, m, Bz)) (calls trace)
     = [(- e, me, 1e-3); (- e, me, 2e-3); (- e, me, 5e-3);
        (- e, me, B_default); (- e, me, B_default); (- e, me, B_default);
        (- e, me, B_default); (- e, 2 * me, B_default); (- e, 4 * me, B_default);
        (- e, me, B_default); (e, me, B_default)]
  /\ Forall2 (fun Ek c => let '(v0, _, m, _) := c in v0 = sqrt (2 * Ek * e / m))
       energies (calls trace)
  /\ plotted trace = map result_of (calls trace).
Proof.
  split; [|split; [|split]].
  - cbv -[simulate_trajectory PrimFloat.sqrt]. reflexivity.
  - cbv -[simulate_trajectory PrimFloat.sqrt PrimFloat.mul PrimFloat.opp]. reflexivity.
  - cbv -[simulate_trajectory PrimFloat.sqrt PrimFloat.mul PrimFloat.div].
    repeat constructor.
  - cbv -[simulate_trajectory]. reflexivity.
Qed.

(** ** C9: the empty trajectory *)

(** C9. For a step budget [steps >= 0], the trajectory is empty exactly when
    [steps = 0]; with [steps >= 1] it has at least one point. *)
Theorem C9_empty_iff_no_steps :
  forall cutoff v0 q m Bz steps dt,
    (0 <= steps)%Z ->
    let xy := simulate_trajectory cutoff v0 q m Bz steps dt in
    (xy = ([], []) <-> steps = 0%Z)
    /\ ((1 <= steps)%Z -> (1 <= List.length (combine (fst xy) (snd xy)))%nat).
Proof.
  intros cutoff v0 q m Bz steps dt Hs xy.
  assert (Hlen : List.length (combine (fst xy) (snd xy)) = passes cutoff v0 q m Bz steps dt).
  { subst xy. rewrite length_combine, xs_length, ys_length. lia. }
  split; [split|].
  - intros Hxy. destruct (Z.eq_dec steps 0) as [|Hne]; [assumption|].
    pose proof (passes_pos cutoff q m Bz dt v0 steps ltac:(lia)) as Hp.
    rewrite <- Hlen, Hxy in Hp. cbn in Hp. lia.
  - intros ->. reflexivity.
  - intros H1. rewrite Hlen. now apply passes_pos.
Qed.

(** C9 at [steps = 0] and at [steps = 2]. *)
Lemma C9_empty_iff_no_steps_witness :
  (0 <= 0)%Z
  /\ simulate_trajectory cutoff_distance 1 1 1 1 0 1 = ([], [])
  /\ (1 <= 2)%Z
  /\ (1 <= List.length (combine (fst (simulate_trajectory cutoff_distance 1 1 1 1 2 1))
                                (snd (simulate_trajectory cutoff_distance 1 1 1 1 2 1))))%nat.
Proof.
  split; [lia|]. split.
  - apply (proj1 (C9_empty_iff_no_steps cutoff_distance 1 1 1 1 0 1 ltac:(lia))).
    reflexivity.
  - split; [lia|].
    apply (proj2 (C9_empty_iff_no_steps cutoff_distance 1 1 1 1 2 1 ltac:(lia))). lia.
Defined.

(** ** C10: two lists of one length, and a strict comparison *)

(** C10. The two lists returned have the same length, a pass appends one
    value to each of them, and a pass whose new position is at a distance
    equal to the cutoff does not break: the comparison of line 69 is strict. *)
Theorem C10_equal_lengths_strict_cutoff :
  forall cutoff v0 q m Bz steps dt,
    let xy := simulate_trajectory cutoff v0 q m Bz steps dt in
    List.length (fst xy) = List.length (snd xy)
    /\ (forall f,
          let f' := fst (iteration cutoff q m Bz dt f) in
          List.length (x_traj f') = S (List.length (x_traj f))
          /\ List.length (y_traj f') = S (List.length (y_traj f)))
    /\ (forall f,
          (norm (pos (advance q m Bz dt (now f))) =? cutoff) = true ->
          snd (iteration cutoff q m Bz dt f) = false).
Proof.
  intros cutoff v0 q m Bz steps dt xy. subst xy. split; [|split].
  - now rewrite xs_length, ys_length.
  - intros f f'. subst f'. cbn [iteration fst x_traj y_traj].
    rewrite !length_app. cbn [List.length]. lia.
  - intros f H. cbn [iteration snd]. unfold exceeds. now apply eqb_not_ltb.
Qed.

(** C10 on a first pass that lands at 20 m exactly, the cutoff being 20 m. *)
Lemma C10_equal_lengths_strict_cutoff_witness :
  (norm (pos (advance 0 1 0 1 (now (entry 20)))) =? 20) = true
  /\ snd (iteration 20 0 1 0 1 (entry 20)) = false.
Proof.
  split; [reflexivity|].
  apply (C10_equal_lengths_strict_cutoff 20 20 0 1 0 5 1). reflexivity.
Defined.

(** The run of the end-to-end scenario keeps its whole budget of points. *)
Example default_run_has_5000_points :
  List.length (fst (simulate_trajectory cutoff_distance
                      (sqrt (2 * Ek_default * e / me)) (- e) me B_default steps dt))
  = 5000%nat.
Proof. vm_compute. reflexivity. Qed.

(** The fused sum decides the test of line 69.  After the first pass below
    the two squares, each rounded, add up to 400 exactly, but the fused sum
    is just above it: the norm is 20.000000000000004 and the run stops. *)
Example the_fused_norm_decides :
  let p := orbit 2.23 (-8.912685505447902) 1 1 1 1 in
  sqrt (at0 (pos p) * at0 (pos p) + at1 (pos p) * at1 (pos p)) = 20
  /\ norm (pos p) = 20.000000000000004
  /\ List.length (fst (simulate_trajectory 20 2.23 (-8.912685505447902) 1 1 2 1)) = 1%nat.
Proof. repeat split; vm_compute; reflexivity. Qed.

(** A position at the cutoff distance itself does not stop the run; the next
    one, beyond it, does and is kept. *)
Example at_the_cutoff_the_run_goes_on :
  simulate_trajectory 20 20 0 1 0 5 1 = ([2000; 4000], [0; 0]).
Proof. reflexivity. Qed.

(** * Further properties of the code

    ** More binary64 arithmetic: NaN, zeros and rounding *)

Module F64More.

(** Rounding a non-negative mantissa never gives NaN. *)

Lemma shr_1_nonneg r : (0 <= shr_m r)%Z -> (0 <= shr_m (shr_1 r))%Z.
Proof.
  destruct r as [mr rr sr]. cbn [shr_m]. unfold shr_1.
  destruct mr as [|[p|p|]|[p|p|]]; cbn [shr_m]; lia.
Qed.

Lemma iter_shr_1_nonneg n : forall r,
  (0 <= shr_m r)%Z -> (0 <= shr_m (SpecFloat.iter_pos shr_1 n r))%Z.
Proof.
  induction n as [n IH|n IH|]; intros r Hr; cbn [SpecFloat.iter_pos].
  - apply IH, IH, shr_1_nonneg, Hr.
  - apply IH, IH, Hr.
  - apply shr_1_nonneg, Hr.
Qed.

Lemma shr_fexp_nonneg mx ex lx :
  (0 <= mx)%Z -> (0 <= shr_m (fst (shr_fexp prec emax mx ex lx)))%Z.
Proof.
  intros Hm. unfold shr_fexp, shr.
  assert (H0 : (0 <= shr_m (shr_record_of_loc mx lx))%Z)
    by (destruct lx as [|[ | | ]]; exact Hm).
  destruct (fexp prec emax (Zdigits2 mx + ex) - ex)%Z; cbn [fst]; try exact H0.
  now apply iter_shr_1_nonneg.
Qed.

Lemma round_nearest_even_nonneg mx lx :
  (0 <= mx)%Z -> (0 <= round_nearest_even mx lx)%Z.
Proof.
  intros Hm. unfold round_nearest_even.
  destruct lx as [|[ | | ]]; try lia. destruct (Z.even mx); lia.
Qed.

Lemma round_aux_not_nan s mx ex lx :
  (0 <= mx)%Z -> binary_round_aux prec emax s mx ex lx <> S754_nan.
Proof.
  intros Hm. unfold binary_round_aux.
  pose proof (shr_fexp_nonneg mx ex lx Hm) as H1.
  destruct (shr_fexp prec emax mx ex lx) as [r1 e1]. cbn [fst] in H1.
  pose proof (shr_fexp_nonneg _ e1 loc_Exact
                (round_nearest_even_nonneg _ (loc_of_shr_record r1) H1)) as H2.
  destruct (shr_fexp prec emax _ e1 loc_Exact) as [r2 e2]. cbn [fst] in H2.
  destruct (shr_m r2); [discriminate| |lia].
  destruct (Z.leb e2 _); discriminate.
Qed.

(** NaN goes through every operation and fails every comparison. *)

Lemma is_nan_eq a : is_nan a = true -> a = nan.
Proof.
  rewrite F64Facts.is_nan_spec. intros H. apply Prim2SF_inj.
  change (Prim2SF nan) with S754_nan.
  destruct (Prim2SF a); try discriminate H. reflexivity.
Qed.

Lemma nan_add_l a b : is_nan a = true -> is_nan (a + b) = true.
Proof.
  rewrite !F64Facts.is_nan_spec, add_spec.
  destruct (Prim2SF a); try discriminate. reflexivity.
Qed.

Lemma nan_add_r a b : is_nan b = true -> is_nan (a + b) = true.
Proof.
  rewrite !F64Facts.is_nan_spec, add_spec.
  destruct (Prim2SF b); try discriminate. destruct (Prim2SF a); reflexivity.
Qed.

Lemma nan_mul_l a b : is_nan a = true -> is_nan (a * b) = true.
Proof.
  rewrite !F64Facts.is_nan_spec, mul_spec.
  destruct (Prim2SF a); try discriminate. reflexivity.
Qed.

Lemma nan_mul_r a b : is_nan b = true -> is_nan (a * b) = true.
Proof.
  rewrite !F64Facts.is_nan_spec, mul_spec.
  destruct (Prim2SF b); try discriminate. destruct (Prim2SF a); reflexivity.
Qed.

Lemma nan_div_l a b : is_nan a = true -> is_nan (a / b) = true.
Proof.
  rewrite !F64Facts.is_nan_spec, div_spec.
  destruct (Prim2SF a); try discriminate. reflexivity.
Qed.

Lemma nan_sqrt a : is_nan a = true -> is_nan (sqrt a) = true.
Proof.
  rewrite !F64Facts.is_nan_spec, sqrt_spec.
  destruct (Prim2SF a); try discriminate. reflexivity.
Qed.

Lemma nan_fma_l a b c : is_nan a = true -> is_nan (F64.fma a b c) = true.
Proof.
  rewrite F64Facts.is_nan_spec. unfold F64.fma.
  destruct (Prim2SF a); try discriminate. reflexivity.
Qed.

Lemma nan_fma_r a b c : is_nan c = true -> is_nan (F64.fma a b c) = true.
Proof.
  rewrite F64Facts.is_nan_spec. unfold F64.fma.
  destruct (Prim2SF c); try discriminate.
  destruct (Prim2SF a), (Prim2SF b); reflexivity.
Qed.

Lemma ltb_nan_r a b : is_nan b = true -> (a <? b) = false.
Proof.
  rewrite F64Facts.is_nan_spec, ltb_spec. unfold SFltb.
  destruct (Prim2SF b); try discriminate. destruct (Prim2SF a); reflexivity.
Qed.

Lemma zero_div_zero a b : is_zero a = true -> is_zero b = true -> is_nan (a / b) = true.
Proof.
  rewrite !F64Facts.is_zero_spec, F64Facts.is_nan_spec, div_spec.
  destruct (Prim2SF a), (Prim2SF b); try discriminate. reflexivity.
Qed.

(** A product with a finite number other than zero is NaN only if the other
    factor is. *)
Lemma nan_mul_inv a b :
  is_finite b = true -> is_zero b = false ->
  is_nan (a * b) = true -> is_nan a = true.
Proof.
  rewrite F64Facts.is_finite_spec, F64Facts.is_zero_spec, !F64Facts.is_nan_spec, mul_spec.
  unfold SF64mul.
  destruct (Prim2SF a) as [sa|sa| |sa ma ea], (Prim2SF b) as [sb|sb| |sb mb eb];
    cbn [F64.sf_fin F64.sf_zero SFmul]; try discriminate; try reflexivity.
  intros _ _ H.
  destruct (binary_round_aux prec emax (xorb sa sb) (Z.pos (ma * mb)) (ea + eb) loc_Exact) eqn:E;
    try discriminate H.
  exfalso. assert (Hp : (0 <= Z.pos (ma * mb))%Z) by lia.
  exact (round_aux_not_nan _ _ _ _ Hp E).
Qed.

(** Zeros. *)

Lemma is_zero_opp a : is_zero (- a) = is_zero a.
Proof. rewrite !F64Facts.is_zero_spec, opp_spec. destruct (Prim2SF a); reflexivity. Qed.

#[global] Instance is_zero_feq : Proper (F64.feq ==> eq) is_zero.
Proof.
  intros a a' H. rewrite !F64Facts.is_zero_spec. unfold F64.feq in H.
  destruct (Prim2SF a), (Prim2SF a'); simpl in *; try reflexivity; discriminate H.
Qed.

Lemma finite_mul_zero a b :
  is_finite a = true -> is_zero b = true -> is_zero (a * b) = true.
Proof.
  rewrite !F64Facts.is_zero_spec, F64Facts.is_finite_spec, mul_spec.
  destruct (Prim2SF a), (Prim2SF b); simpl; congruence.
Qed.

Lemma zero_add_zero a b :
  is_zero a = true -> is_zero b = true -> is_zero (a + b) = true.
Proof.
  rewrite !F64Facts.is_zero_spec, add_spec.
  destruct (Prim2SF a) as [sa| | |], (Prim2SF b) as [sb| | |]; simpl; try congruence.
  destruct sa, sb; reflexivity.
Qed.

Lemma zero_fma a b c :
  is_zero a = true -> is_zero b = true -> is_zero c = true ->
  is_zero (F64.fma a b c) = true.
Proof.
  rewrite !F64Facts.is_zero_spec. unfold F64.fma.
  destruct (Prim2SF a) as [sa| | |], (Prim2SF b) as [sb| | |], (Prim2SF c) as [sc| | |];
    try discriminate.
  intros _ _ _. destruct sa, sb, sc; reflexivity.
Qed.

Lemma zero_sqrt a : is_zero a = true -> is_zero (sqrt a) = true.
Proof.
  rewrite !F64Facts.is_zero_spec, sqrt_spec. destruct (Prim2SF a); try discriminate.
  reflexivity.
Qed.

Lemma zero_feq a : is_zero a = true -> F64.feq a 0.
Proof.
  rewrite F64Facts.is_zero_spec. unfold F64.feq.
  change (Prim2SF 0) with (S754_zero false).
  destruct (Prim2SF a); try discriminate. intros _. exact I.
Qed.

(** Nothing is above infinity. *)
Lemma infinity_not_ltb a : (infinity <? a) = false.
Proof.
  rewrite ltb_spec. change (Prim2SF infinity) with (S754_infinity false).
  unfold SFltb. destruct (Prim2SF a) as [s|s| |s m e]; try reflexivity.
  destruct s; reflexivity.
Qed.

(** Reversals of sign. *)

Lemma add_opp_neg a b : F64.feq (- a + b) (- (a + - b)).
Proof. rewrite <- (F64Facts.opp_invol b) at 1. apply F64Facts.add_opp. Qed.

Lemma flip_flip b c x : Motion.flip b (Motion.flip c x) = Motion.flip (xorb b c) x.
Proof. destruct b, c; cbn; rewrite ?F64Facts.opp_invol; reflexivity. Qed.

Lemma flip_mul_l b x y : Motion.flip b x * y = Motion.flip b (x * y).
Proof. destruct b; cbn; [apply F64Facts.mul_opp_l|reflexivity]. Qed.

Lemma flip_mul_r b x y : x * Motion.flip b y = Motion.flip b (x * y).
Proof. destruct b; cbn; [apply F64Facts.mul_opp_r|reflexivity]. Qed.

Lemma flip_div_l b x y : Motion.flip b x / y = Motion.flip b (x / y).
Proof. destruct b; cbn; [apply F64Facts.div_opp_l|reflexivity]. Qed.

Lemma flip_opp b x : - Motion.flip b x = Motion.flip b (- x).
Proof. destruct b; reflexivity. Qed.

Lemma flip_add b x y :
  F64.feq (Motion.flip b x + Motion.flip b y) (Motion.flip b (x + y)).
Proof. destruct b; cbn; [apply F64Facts.add_opp|reflexivity]. Qed.

#[global] Instance flip_feq b : Proper (F64.feq ==> F64.feq) (Motion.flip b).
Proof. intros x y H. destruct b; cbn; [now apply F64Facts.opp_feq|exact H]. Qed.

End F64More.

(** ** More on whole runs *)

Module RunFacts.

Import Np Integrator Motion F64 F64Facts F64More IntegratorFacts.

Lemma firstn_map_seq {A} (g : nat -> A) : forall k a n,
  (k <= n)%nat -> firstn k (map g (seq a n)) = map g (seq a k).
Proof.
  induction k as [|k IH]; intros a n Hk; [reflexivity|].
  destruct n as [|n]; [lia|]. cbn [seq map firstn]. f_equal. apply IH. lia.
Qed.

Section Budget.

Variable cutoff : float.
Variables q m Bz dt v0 : float.

#[local] Abbreviation orbit := (orbit v0 q m Bz dt).
#[local] Abbreviation passes steps := (passes cutoff v0 q m Bz steps dt).
#[local] Abbreviation simulate steps := (simulate_trajectory cutoff v0 q m Bz steps dt).

Lemma passes_full steps :
  (forall i, (1 <= i < Z.to_nat steps)%nat -> exceeds cutoff (orbit i) = false) ->
  passes steps = Z.to_nat steps.
Proof. apply (for_range_full cutoff q m Bz dt (Z.to_nat steps) (entry v0)). Qed.

(** A run that stopped short is not changed by a larger budget. *)
Lemma passes_saturated steps steps' :
  (passes steps < Z.to_nat steps)%nat -> (steps <= steps')%Z ->
  passes steps' = passes steps.
Proof.
  intros Hlt Hle.
  assert (H1 : (1 <= passes steps)%nat).
  { apply passes_pos. destruct (Z.to_nat steps) eqn:E; lia. }
  apply passes_first.
  - lia.
  - now apply passes_early.
  - intros j Hj. now apply (passes_within cutoff q m Bz dt v0 steps).
Qed.

Lemma passes_mono steps steps' :
  (steps <= steps')%Z -> (passes steps <= passes steps')%nat.
Proof.
  intros Hle.
  pose proof (passes_le cutoff q m Bz dt v0 steps) as H1.
  destruct (Nat.eq_dec (passes steps) (Z.to_nat steps)) as [Heq|Hne].
  - destruct (Nat.le_gt_cases (passes steps) (passes steps')) as [|Hgt]; [assumption|].
    exfalso.
    assert (Hs' : (passes steps' < Z.to_nat steps')%nat) by lia.
    pose proof (passes_early cutoff q m Bz dt v0 steps' Hs') as Hex.
    assert (Hp : (1 <= passes steps')%nat).
    { apply passes_pos. destruct (Z.to_nat steps') eqn:E; lia. }
    rewrite (passes_within cutoff q m Bz dt v0 steps (passes steps')) in Hex by lia.
    discriminate.
  - rewrite (passes_saturated steps steps') by lia. lia.
Qed.

Lemma xs_firstn steps k :
  (k <= passes steps)%nat ->
  firstn k (fst (simulate steps)) = map (fun j => fst (point_cm (orbit j))) (seq 1 k).
Proof. intros Hk. rewrite xs_orbit. now apply firstn_map_seq. Qed.

Lemma ys_firstn steps k :
  (k <= passes steps)%nat ->
  firstn k (snd (simulate steps)) = map (fun j => snd (point_cm (orbit j))) (seq 1 k).
Proof. intros Hk. rewrite ys_orbit. now apply firstn_map_seq. Qed.

(** A particle whose abscissa, or whose ordinate, is NaN keeps it so and
    never passes the test of line 69. *)

Lemma nan_x_advance p :
  is_nan (at0 (pos p)) = true -> is_nan (at0 (pos (advance q m Bz dt p))) = true.
Proof. destruct p as [[x y] v]. unfold_step. apply nan_add_l. Qed.

Lemma nan_y_advance p :
  is_nan (at1 (pos p)) = true -> is_nan (at1 (pos (advance q m Bz dt p))) = true.
Proof. destruct p as [[x y] v]. unfold_step. apply nan_add_l. Qed.

Lemma nan_x_orbit j k :
  (j <= k)%nat -> is_nan (at0 (pos (orbit j))) = true -> is_nan (at0 (pos (orbit k))) = true.
Proof.
  intros Hjk Hj. induction Hjk as [|k Hjk IH]; [exact Hj|].
  unfold Integrator.orbit. rewrite Nat.iter_succ. now apply nan_x_advance.
Qed.

Lemma nan_y_orbit j k :
  (j <= k)%nat -> is_nan (at1 (pos (orbit j))) = true -> is_nan (at1 (pos (orbit k))) = true.
Proof.
  intros Hjk Hj. induction Hjk as [|k Hjk IH]; [exact Hj|].
  unfold Integrator.orbit. rewrite Nat.iter_succ. now apply nan_y_advance.
Qed.

Lemma nan_not_exceeds p :
  is_nan (at0 (pos p)) = true \/ is_nan (at1 (pos p)) = true ->
  exceeds cutoff p = false.
Proof.
  destruct p as [[x y] v]. unfold_step. intros H.
  apply ltb_nan_r, nan_sqrt. destruct H as [H|H].
  - now apply nan_fma_r, nan_mul_l.
  - now apply nan_fma_l.
Qed.

Lemma nan_runs_out steps j :
  (1 <= j <= passes steps)%nat ->
  is_nan (at0 (pos (orbit j))) = true \/ is_nan (at1 (pos (orbit j))) = true ->
  passes steps = Z.to_nat steps.
Proof.
  intros Hj Hnan.
  pose proof (passes_le cutoff q m Bz dt v0 steps) as Hle.
  destruct (Nat.eq_dec (passes steps) (Z.to_nat steps)) as [|Hne]; [assumption|].
  exfalso.
  assert (Hlt : (passes steps < Z.to_nat steps)%nat) by lia.
  pose proof (passes_early cutoff q m Bz dt v0 steps Hlt) as Hex.
  rewrite nan_not_exceeds in Hex; [discriminate|].
  destruct Hnan as [H|H]; [left; apply (nan_x_orbit j)|right; apply (nan_y_orbit j)];
    solve [lia | assumption].
Qed.

End Budget.

(** *** Reversing signs *)

Section Signs.

Variable cutoff : float.
Variables q m Bz dt : float.
Variables a b : bool.

#[local] Ltac push_signs :=
  repeat (rewrite mul_opp_l || rewrite mul_opp_r || rewrite div_opp_l
          || rewrite opp_invol).

Lemma advance_reflected sx p p' :
  reflected sx (xorb (xorb a b) sx) p p' ->
  reflected sx (xorb (xorb a b) sx)
    (advance q m Bz dt p) (advance (flip a q) m (flip b Bz) dt p').
Proof.
  destruct p as [[x y] [vx vy]], p' as [[x' y'] [vx' vy']].
  unfold reflected. unfold_step.
  destruct a, b, sx; cbn [flip xorb]; intros (Hx & Hy & Hvx & Hvy);
    match goal with
    | |- feq (?px + ?vxn * dt) _ /\ feq (?py + ?vyn * dt) _ /\ feq _ ?rx /\ feq _ ?ry =>
        assert (Ax : feq vxn rx)
          by (rewrite Hvx, Hvy; push_signs; first [reflexivity | apply add_opp]);
        assert (Ay : feq vyn ry)
          by (rewrite Hvx, Hvy; push_signs;
              first [reflexivity | apply add_opp | apply add_opp_neg]);
        repeat split; try assumption;
        [ rewrite Hx, Ax | rewrite Hy, Ay ];
        push_signs; first [reflexivity | apply add_opp]
    end.
Qed.

Lemma start_reflected c sy v0 : reflected c sy (start v0) (start (flip c v0)).
Proof.
  unfold reflected, start. cbn [pos vel at0 at1].
  repeat split; try reflexivity; destruct c, sy; cbn [flip]; first [exact I | reflexivity].
Qed.

Lemma orbit_reflected c v0 k :
  reflected c (xorb (xorb a b) c)
    (orbit v0 q m Bz dt k) (orbit (flip c v0) (flip a q) m (flip b Bz) dt k).
Proof.
  unfold orbit. induction k as [|k IH].
  - apply start_reflected.
  - rewrite !Nat.iter_succ. now apply advance_reflected.
Qed.

Lemma exceeds_reflected sx sy p p' :
  reflected sx sy p p' -> exceeds cutoff p' = exceeds cutoff p.
Proof.
  destruct p as [[x y] [vx vy]], p' as [[x' y'] [vx' vy']].
  unfold reflected. unfold_step. intros (Hx & Hy & _).
  apply ltb_feq; [reflexivity|]. rewrite Hx, Hy.
  destruct sx, sy; cbn [flip]; push_signs; rewrite ?fma_opp_opp; reflexivity.
Qed.

Lemma for_range_reflected sx n : forall f f',
  reflected sx (xorb (xorb a b) sx) (now f) (now f') ->
  fst (for_range cutoff (flip a q) m (flip b Bz) dt n f')
  = fst (for_range cutoff q m Bz dt n f).
Proof.
  induction n as [|n IH]; intros f f' H; [reflexivity|].
  rewrite !for_range_S.
  pose proof (advance_reflected _ _ _ H) as H'.
  rewrite (exceeds_reflected _ _ _ _ H').
  destruct (exceeds cutoff _); cbn [fst]; [reflexivity|].
  f_equal. apply IH. now rewrite !now_pass.
Qed.

Lemma passes_reflected c v0 steps :
  passes cutoff (flip c v0) (flip a q) m (flip b Bz) steps dt
  = passes cutoff v0 q m Bz steps dt.
Proof. apply (for_range_reflected c), start_reflected. Qed.

Lemma point_reflected sx sy p p' :
  reflected sx sy p p' ->
  same (fst (point_cm p')) (flip sx (fst (point_cm p))) = true
  /\ same (snd (point_cm p')) (flip sy (snd (point_cm p))) = true.
Proof.
  destruct p as [[x y] [vx vy]], p' as [[x' y'] [vx' vy']].
  unfold reflected. unfold_step. intros (Hx & Hy & _). split; apply feq_same.
  - rewrite Hx. now rewrite flip_mul_l.
  - rewrite Hy. now rewrite flip_mul_l.
Qed.

(** The run with reversed signs, against the run without. *)
Lemma run_reflected c v0 steps :
  let xy := simulate_trajectory cutoff v0 q m Bz steps dt in
  let xy' := simulate_trajectory cutoff (flip c v0) (flip a q) m (flip b Bz) steps dt in
  Forall2 (fun x x' => same x' (flip c x) = true) (fst xy) (fst xy')
  /\ Forall2 (fun y y' => same y' (flip (xorb (xorb a b) c) y) = true) (snd xy) (snd xy').
Proof.
  intros xy xy'. subst xy xy'.
  rewrite !xs_orbit, !ys_orbit, !passes_reflected.
  split.
  - induction (seq 1 (passes cutoff v0 q m Bz steps dt)) as [|k l IH]; cbn [map];
      constructor; [|exact IH].
    apply (point_reflected _ _ _ _ (orbit_reflected c v0 k)).
  - induction (seq 1 (passes cutoff v0 q m Bz steps dt)) as [|k l IH]; cbn [map];
      constructor; [|exact IH].
    apply (point_reflected _ _ _ _ (orbit_reflected c v0 k)).
Qed.

End Signs.

(** *** Motion without force *)

Section Coasting.

Variable cutoff : float.
Variables q m Bz dt v0 : float.
Hypothesis m_nonzero : is_zero m = false.
Hypothesis m_number : is_nan m = false.
Hypothesis dt_finite : is_finite dt = true.
Hypothesis no_force_x : is_zero (q * (0 * Bz)) = true.
Hypothesis no_force_y : is_zero (q * - (v0 * Bz)) = true.

Lemma no_kick F : is_zero F = true -> is_zero (F / m * dt) = true.
Proof.
  intros HF. apply zero_mul_finite; [|exact dt_finite].
  now apply zero_div.
Qed.

Lemma advance_coasting x p :
  coasting v0 x p -> coasting v0 (x + v0 * dt) (advance q m Bz dt p).
Proof.
  destruct p as [[px py] [vx vy]]. unfold coasting. unfold_step.
  intros (Hpx & -> & Hvx & ->).
  assert (Hvx' : feq (vx + q * (0 * Bz) / m * dt) v0).
  { transitivity vx; [|exact Hvx]. apply add_zero_r, no_kick, no_force_x. }
  assert (Hvy' : 0 + q * - (vx * Bz) / m * dt = 0).
  { apply pzero_add_zero, no_kick. rewrite Hvx. exact no_force_y. }
  rewrite Hvy'. repeat split.
  - now rewrite Hpx, Hvx'.
  - apply pzero_add_zero, zero_mul_finite; [reflexivity|exact dt_finite].
  - exact Hvx'.
Qed.

Lemma orbit_coasting k : coasting v0 (drift v0 dt k) (orbit v0 q m Bz dt k).
Proof.
  unfold orbit, drift. induction k as [|k IH].
  - repeat split; reflexivity.
  - rewrite !Nat.iter_succ. now apply advance_coasting.
Qed.

Lemma coasting_run steps :
  let xy := simulate_trajectory cutoff v0 q m Bz steps dt in
  Forall2 (fun x k => same x (drift v0 dt k * 100) = true)
    (fst xy) (seq 1 (List.length (fst xy)))
  /\ Forall (fun y => y = 0) (snd xy).
Proof.
  intros xy. subst xy. rewrite xs_length, xs_orbit, ys_orbit. split.
  - induction (seq 1 (passes cutoff v0 q m Bz steps dt)) as [|k l IH]; cbn [map];
      constructor; [|exact IH].
    destruct (orbit_coasting k) as (Hx & _). unfold point_cm. cbn [fst].
    apply feq_same. now rewrite Hx.
  - apply Forall_map, Forall_forall. intros k _.
    destruct (orbit_coasting k) as (_ & Hy & _).
    unfold point_cm. cbn [snd]. rewrite Hy. reflexivity.
Qed.

End Coasting.

End RunFacts.

(** ** The properties *)

Import Motion RunFacts F64More.

(** *** The step budget *)

(** X1. Raising the step budget only extends a trajectory: the run with the
    smaller budget returns the first points of the run with the larger one. *)
Theorem X1_larger_budget_extends :
  forall cutoff v0 q m Bz steps steps' dt,
    (steps <= steps')%Z ->
    let xy := simulate_trajectory cutoff v0 q m Bz steps dt in
    let xy' := simulate_trajectory cutoff v0 q m Bz steps' dt in
    fst xy = firstn (List.length (fst xy)) (fst xy')
    /\ snd xy = firstn (List.length (snd xy)) (snd xy').
Proof.
  intros cutoff v0 q m Bz steps steps' dt Hle xy xy'. subst xy xy'.
  pose proof (passes_mono cutoff q m Bz dt v0 steps steps' Hle) as Hm.
  rewrite xs_length, ys_length, xs_firstn, ys_firstn by exact Hm.
  split; [apply xs_orbit|apply ys_orbit].
Qed.

(** X1 on budgets 1 and 3. *)
Lemma X1_larger_budget_extends_witness :
  (1 <= 3)%Z
  /\ fst (simulate_trajectory cutoff_distance 1 (-1) 1 1 1 0.5)
     = firstn 1 (fst (simulate_trajectory cutoff_distance 1 (-1) 1 1 3 0.5)).
Proof.
  split; [lia|].
  exact (proj1 (X1_larger_budget_extends cutoff_distance 1 (-1) 1 1 1 3 0.5 ltac:(lia))).
Defined.

(** X2. A run that stopped before its budget was used up returns the same
    trajectory under every larger budget. *)
Theorem X2_stopped_run_ignores_budget :
  forall cutoff v0 q m Bz steps steps' dt,
    (Z.of_nat (List.length (fst (simulate_trajectory cutoff v0 q m Bz steps dt))) < steps)%Z ->
    (steps <= steps')%Z ->
    simulate_trajectory cutoff v0 q m Bz steps' dt
    = simulate_trajectory cutoff v0 q m Bz steps dt.
Proof.
  intros cutoff v0 q m Bz steps steps' dt Hlt Hle. rewrite xs_length in Hlt.
  assert (Hp : passes cutoff v0 q m Bz steps' dt = passes cutoff v0 q m Bz steps dt)
    by (apply passes_saturated; lia).
  rewrite (surjective_pairing (simulate_trajectory cutoff v0 q m Bz steps' dt)).
  rewrite (surjective_pairing (simulate_trajectory cutoff v0 q m Bz steps dt)).
  now rewrite !xs_orbit, !ys_orbit, Hp.
Qed.

(** X2 on a run that leaves the 20 m circle at its second step. *)
Lemma X2_stopped_run_ignores_budget_witness :
  simulate_trajectory 20 20 0 1 0 5000 1 = simulate_trajectory 20 20 0 1 0 5 1.
Proof.
  apply X2_stopped_run_ignores_budget; [vm_compute; reflexivity|lia].
Defined.

(** *** The cutoff *)

Lemma never_beyond_infinity p : exceeds infinity p = false.
Proof. unfold exceeds. apply infinity_not_ltb. Qed.

(** X3. The cutoff only truncates. With the cutoff at infinity the run
    returns one point per step of the budget, and the run under any cutoff
    returns the first points of that list, unchanged. *)
Theorem X3_cutoff_only_truncates :
  forall cutoff v0 q m Bz steps dt,
    let xy := simulate_trajectory cutoff v0 q m Bz steps dt in
    let free := simulate_trajectory infinity v0 q m Bz steps dt in
    List.length (fst free) = Z.to_nat steps
    /\ List.length (snd free) = Z.to_nat steps
    /\ fst xy = firstn (List.length (fst xy)) (fst free)
    /\ snd xy = firstn (List.length (snd xy)) (snd free).
Proof.
  intros cutoff v0 q m Bz steps dt xy free. subst xy free.
  assert (Hf : passes infinity v0 q m Bz steps dt = Z.to_nat steps).
  { apply passes_full. intros i _. apply never_beyond_infinity. }
  pose proof (passes_le cutoff q m Bz dt v0 steps) as Hle.
  rewrite !xs_length, !ys_length, Hf. repeat split.
  - rewrite (xs_firstn infinity) by (rewrite Hf; exact Hle). apply xs_orbit.
  - rewrite (ys_firstn infinity) by (rewrite Hf; exact Hle). apply ys_orbit.
Qed.

(** *** NaN *)

Lemma nth_error_map_seq {A} (g : nat -> A) n i v :
  nth_error (map g (seq 1 n)) i = Some v -> (i < n)%nat /\ v = g (S i).
Proof.
  rewrite nth_error_map, nth_error_seq.
  destruct (Nat.ltb_spec i n); [|discriminate].
  cbn. intros [= <-]. split; [assumption|reflexivity].
Qed.

(** X4. A trajectory in which some coordinate is NaN has one point per step
    of the budget: once a position is NaN the cutoff test never stops the
    loop. *)
Theorem X4_nan_uses_whole_budget :
  forall cutoff v0 q m Bz steps dt i v,
    let xy := simulate_trajectory cutoff v0 q m Bz steps dt in
    nth_error (fst xy) i = Some v \/ nth_error (snd xy) i = Some v ->
    is_nan v = true ->
    List.length (fst xy) = Z.to_nat steps.
Proof.
  intros cutoff v0 q m Bz steps dt i v xy Hv Hnan. subst xy.
  rewrite xs_length. rewrite xs_orbit, ys_orbit in Hv.
  apply (nan_runs_out cutoff q m Bz dt v0 steps (S i)).
  - destruct Hv as [Hv|Hv]; apply nth_error_map_seq in Hv; lia.
  - destruct Hv as [Hv|Hv]; apply nth_error_map_seq in Hv; destruct Hv as [_ ->];
      [left|right]; apply (nan_mul_inv _ 100); solve [reflexivity | exact Hnan].
Qed.

(** X4 on the run with a zero mass. *)
Lemma X4_nan_uses_whole_budget_witness :
  List.length (fst (simulate_trajectory cutoff_distance 1 1 0 1 3 1)) = Z.to_nat 3.
Proof.
  apply (X4_nan_uses_whole_budget cutoff_distance 1 1 0 1 3 1 0%nat nan);
    [left|]; reflexivity.
Defined.

Lemma zero_mass_first_step q m Bz dt v0 :
  is_zero m = true -> is_finite q = true -> is_finite Bz = true ->
  is_nan (at0 (pos (orbit v0 q m Bz dt 1))) = true.
Proof.
  intros Hm Hq HB. unfold orbit, start. cbn [Nat.iter nat_rect]. unfold_step.
  apply nan_add_r, nan_mul_l, nan_add_r, nan_mul_l, zero_div_zero; [|exact Hm].
  apply finite_mul_zero; [exact Hq|].
  apply F64Facts.zero_mul_finite; [reflexivity|exact HB].
Qed.

(** X5. With a mass of zero, and finite [q] and [Bz], nothing is raised:
    every x-coordinate returned is NaN and the run makes every step of its
    budget. *)
Theorem X5_zero_mass_gives_nan :
  forall cutoff v0 q m Bz steps dt,
    is_zero m = true -> is_finite q = true -> is_finite Bz = true ->
    let xy := simulate_trajectory cutoff v0 q m Bz steps dt in
    fst xy = repeat nan (Z.to_nat steps)
    /\ List.length (snd xy) = Z.to_nat steps.
Proof.
  intros cutoff v0 q m Bz steps dt Hm Hq HB xy. subst xy.
  assert (Hnan : forall k, (1 <= k)%nat -> is_nan (at0 (pos (orbit v0 q m Bz dt k))) = true).
  { intros k Hk. apply (nan_x_orbit q m Bz dt v0 1 k Hk).
    now apply zero_mass_first_step. }
  assert (Hp : passes cutoff v0 q m Bz steps dt = Z.to_nat steps).
  { apply passes_full. intros i Hi. apply nan_not_exceeds. left. apply Hnan. lia. }
  rewrite ys_length, xs_orbit, Hp. split; [|reflexivity].
  transitivity (map (fun _ : nat => nan) (seq 1 (Z.to_nat steps))).
  - apply map_ext_in. intros k Hk. apply in_seq in Hk.
    unfold point_cm. cbn [fst]. apply is_nan_eq, nan_mul_l, Hnan. lia.
  - now rewrite map_const, length_seq.
Qed.

(** X5 at [m = 0] with unit charge, field and speed. *)
Lemma X5_zero_mass_gives_nan_witness :
  fst (simulate_trajectory cutoff_distance 1 1 0 1 3 1) = repeat nan (Z.to_nat 3).
Proof.
  exact (proj1 (X5_zero_mass_gives_nan cutoff_distance 1 1 0 1 3 1 eq_refl eq_refl eq_refl)).
Defined.

(** *** Symmetries *)

(** X6. Reversing the field, all else equal, reflects the trajectory in the
    x-axis: same number of points, the same x-coordinates and the opposite
    y-coordinates, as numbers. *)
Theorem X6_field_reversal_mirrors :
  forall cutoff v0 q m Bz steps dt,
    let xy := simulate_trajectory cutoff v0 q m Bz steps dt in
    let xy' := simulate_trajectory cutoff v0 q m (- Bz) steps dt in
    List.length (fst xy') = List.length (fst xy)
    /\ Forall2 (fun x x' => same x' x = true) (fst xy) (fst xy')
    /\ Forall2 (fun y y' => same y' (- y) = true) (snd xy) (snd xy').
Proof.
  intros cutoff v0 q m Bz steps dt xy xy'.
  destruct (run_reflected cutoff q m Bz dt false true false v0 steps) as [Hx Hy].
  split; [symmetry; exact (Forall2_length Hx)|]. split; [exact Hx|exact Hy].
Qed.

(** X7. Reversing both the charge and the field leaves the trajectory
    unchanged: point by point the coordinates are the same numbers. *)
Theorem X7_charge_and_field_reversal :
  forall cutoff v0 q m Bz steps dt,
    let xy := simulate_trajectory cutoff v0 q m Bz steps dt in
    let xy' := simulate_trajectory cutoff v0 (- q) m (- Bz) steps dt in
    List.length (fst xy') = List.length (fst xy)
    /\ Forall2 (fun x x' => same x' x = true) (fst xy) (fst xy')
    /\ Forall2 (fun y y' => same y' y = true) (snd xy) (snd xy').
Proof.
  intros cutoff v0 q m Bz steps dt xy xy'.
  destruct (run_reflected cutoff q m Bz dt true true false v0 steps) as [Hx Hy].
  split; [symmetry; exact (Forall2_length Hx)|]. split; [exact Hx|exact Hy].
Qed.

(** X8. Reversing the initial velocity reflects the trajectory through the
    origin: same number of points, and both coordinates of every point
    change sign. *)
Theorem X8_velocity_reversal :
  forall cutoff v0 q m Bz steps dt,
    let xy := simulate_trajectory cutoff v0 q m Bz steps dt in
    let xy' := simulate_trajectory cutoff (- v0) q m Bz steps dt in
    List.length (fst xy') = List.length (fst xy)
    /\ Forall2 (fun x x' => same x' (- x) = true) (fst xy) (fst xy')
    /\ Forall2 (fun y y' => same y' (- y) = true) (snd xy) (snd xy').
Proof.
  intros cutoff v0 q m Bz steps dt xy xy'.
  destruct (run_reflected cutoff q m Bz dt false false true v0 steps) as [Hx Hy].
  split; [symmetry; exact (Forall2_length Hx)|]. split; [exact Hx|exact Hy].
Qed.

(** *** Motion without force *)

(** X9. A particle without charge moves at constant speed: under the
    conditions of C5 the [k]-th x-coordinate returned is 100 times the sum
    of [k] terms [v0 * dt], added one after the other from 0. *)
Theorem X9_neutral_uniform_motion :
  forall cutoff v0 q m Bz steps dt,
    is_zero q = true ->
    is_zero m = false -> is_nan m = false ->
    is_finite Bz = true -> is_finite dt = true ->
    is_finite (v0 * Bz) = true ->
    let xs := fst (simulate_trajectory cutoff v0 q m Bz steps dt) in
    Forall2 (fun x k => same x (drift v0 dt k * 100) = true) xs (seq 1 (List.length xs)).
Proof.
  intros cutoff v0 q m Bz steps dt Hq Hm Hm' HB Hdt Hv xs. subst xs.
  apply (coasting_run cutoff q m Bz dt v0 Hm Hm' Hdt).
  - apply F64Facts.zero_mul_finite; [exact Hq|].
    apply F64Facts.zero_is_finite, F64Facts.zero_mul_finite; [reflexivity|exact HB].
  - apply F64Facts.zero_mul_finite; [exact Hq|]. now rewrite F64Facts.is_finite_opp.
Qed.

(** X9 at [v0 = 3], [dt = 0.5]: the abscissas are 150, 300 and 450 cm. *)
Lemma X9_neutral_uniform_motion_witness :
  Forall2 (fun x k => same x (drift 3 0.5 k * 100) = true)
    (fst (simulate_trajectory cutoff_distance 3 0 1 2 3 0.5)) [1; 2; 3]%nat.
Proof.
  exact (X9_neutral_uniform_motion cutoff_distance 3 0 1 2 3 0.5
           eq_refl eq_refl eq_refl eq_refl eq_refl eq_refl).
Defined.

(** X10. Without a field the path is straight: with [Bz = 0], finite [q],
    [v0] and [dt], and a mass that is a number other than zero, every
    y-coordinate returned is 0 and the x-coordinates are those of uniform
    motion at the speed [v0]. *)
Theorem X10_no_field_straight_line :
  forall cutoff v0 q m Bz steps dt,
    is_zero Bz = true ->
    is_finite q = true -> is_finite v0 = true -> is_finite dt = true ->
    is_zero m = false -> is_nan m = false ->
    let xy := simulate_trajectory cutoff v0 q m Bz steps dt in
    Forall2 (fun x k => same x (drift v0 dt k * 100) = true)
      (fst xy) (seq 1 (List.length (fst xy)))
    /\ Forall (fun y => y = 0) (snd xy).
Proof.
  intros cutoff v0 q m Bz steps dt HB Hq Hv Hdt Hm Hm'.
  apply (coasting_run cutoff q m Bz dt v0 Hm Hm' Hdt).
  - apply finite_mul_zero; [exact Hq|].
    apply F64Facts.zero_mul_finite; [reflexivity|now apply F64Facts.zero_is_finite].
  - apply finite_mul_zero; [exact Hq|]. rewrite is_zero_opp.
    now apply finite_mul_zero.
Qed.

(** X10 for an electron-like charge in no field. *)
Lemma X10_no_field_straight_line_witness :
  Forall (fun y => y = 0) (snd (simulate_trajectory cutoff_distance 3 (-1) 1 0 3 0.5)).
Proof.
  exact (proj2 (X10_no_field_straight_line cutoff_distance 3 (-1) 1 0 3 0.5
                  eq_refl eq_refl eq_refl eq_refl eq_refl eq_refl)).
Defined.

Lemma drift_at_rest v0 dt k :
  is_zero v0 = true -> is_finite dt = true -> is_zero (drift v0 dt k) = true.
Proof.
  intros Hv Hdt. unfold drift. induction k as [|k IH]; [reflexivity|].
  rewrite Nat.iter_succ. apply zero_add_zero; [exact IH|].
  now apply F64Facts.zero_mul_finite.
Qed.

(** X11. A particle started at rest stays at the origin: with [v0 = 0],
    finite [q], [Bz] and [dt], and a mass that is a number other than zero,
    every coordinate returned is zero; and unless the cutoff is negative the
    run makes every step of its budget. *)
Theorem X11_at_rest_stays_at_origin :
  forall cutoff v0 q m Bz steps dt,
    is_zero v0 = true ->
    is_finite q = true -> is_finite Bz = true -> is_finite dt = true ->
    is_zero m = false -> is_nan m = false ->
    let xy := simulate_trajectory cutoff v0 q m Bz steps dt in
    Forall (fun x => is_zero x = true) (fst xy)
    /\ Forall (fun y => y = 0) (snd xy)
    /\ ((cutoff <? 0) = false -> List.length (fst xy) = Z.to_nat steps).
Proof.
  intros cutoff v0 q m Bz steps dt Hv Hq HB Hdt Hm Hm' xy. subst xy.
  assert (Fx : is_zero (q * (0 * Bz)) = true).
  { apply finite_mul_zero; [exact Hq|].
    apply F64Facts.zero_mul_finite; [reflexivity|exact HB]. }
  assert (Fy : is_zero (q * - (v0 * Bz)) = true).
  { apply finite_mul_zero; [exact Hq|]. rewrite is_zero_opp.
    now apply F64Facts.zero_mul_finite. }
  pose proof (orbit_coasting q m Bz dt v0 Hm Hm' Hdt Fx Fy) as Hc.
  assert (Hx0 : forall k, is_zero (at0 (pos (orbit v0 q m Bz dt k))) = true).
  { intros k. destruct (Hc k) as (Hx & _). rewrite Hx. now apply drift_at_rest. }
  split; [|split].
  - rewrite xs_orbit. apply Forall_map, Forall_forall. intros k _.
    unfold point_cm. cbn [fst]. apply F64Facts.zero_mul_finite; [apply Hx0|reflexivity].
  - apply (coasting_run cutoff q m Bz dt v0 Hm Hm' Hdt Fx Fy).
  - intros Hcut. rewrite xs_length. apply passes_full. intros i _.
    destruct (Hc i) as (_ & Hy & _). specialize (Hx0 i).
    destruct (orbit v0 q m Bz dt i) as [[x y] v]. unfold_step. subst y.
    rewrite <- Hcut. apply F64Facts.ltb_feq; [reflexivity|].
    apply zero_feq, zero_sqrt, zero_fma; [reflexivity|reflexivity|].
    apply F64Facts.zero_mul_finite; [exact Hx0|now apply F64Facts.zero_is_finite].
Qed.

(** X11 for a unit charge at rest in a unit field, under the script's cutoff. *)
Lemma X11_at_rest_stays_at_origin_witness :
  List.length (fst (simulate_trajectory cutoff_distance 0 1 1 1 4 0.5)) = Z.to_nat 4.
Proof.
  apply (X11_at_rest_stays_at_origin cutoff_distance 0 1 1 1 4 0.5); reflexivity.
Defined.

(** *** The driver *)

(** X12. The fourth panel of the figure holds two curves, the electron's
    and then the positron's, and they are mirror images in the x-axis: the
    same number of points, the same x-coordinates and opposite
    y-coordinates, as numbers. *)
Theorem X12_charge_panel_is_mirrored :
  let v0 := sqrt (2 * Ek_default * e / me) in
  let electron := simulate_trajectory cutoff_distance v0 (- e) me B_default steps dt in
  let positron := simulate_trajectory cutoff_distance v0 e me B_default steps dt in
  Figure.curves 1 1 Sweep.trace = [electron; positron]
  /\ List.length (fst positron) = List.length (fst electron)
  /\ Forall2 (fun x x' => same x' x = true) (fst electron) (fst positron)
  /\ Forall2 (fun y y' => same y' (- y) = true) (snd electron) (snd positron).
Proof.
  intros v0 electron positron. split.
  - cbv -[simulate_trajectory]. reflexivity.
  - destruct (run_reflected cutoff_distance (- e) me B_default dt true false false v0 steps)
      as [Hx Hy].
    cbv [flip xorb] in Hx, Hy. change (- - e) with e in Hx, Hy.
    split; [symmetry; exact (Forall2_length Hx)|]. split; [exact Hx|exact Hy].
Qed.
